(** * A shallow embedding of the quiz script [web_quiz.py]

    The program is a Streamlit script: every user interaction runs the
    whole file from top to bottom against [st.session_state], a button
    returns [True] only in the run that its click started, [st.rerun()]
    abandons the current run and starts a new one in which no button is
    pressed, and [st.stop()] ends the run.  The embedding follows that
    execution model: [script_pass] is one top-to-bottom run, [run] is the
    reaction to one user event (a pass, and the pass a rerun starts). *)

From Stdlib Require Import ZArith String Ascii PrimFloat FloatOps FloatAxioms Uint63.
From stdpp Require Import gmap list sorting.

Local Open Scope Z_scope.

(** ** Python values *)

(** A Python [str] is a sequence of code points; [sorted], indexing and
    [list(s)] all work on code points, so a string is a list of them and
    a one-character string is its single code point. *)
Abbreviation pystr := (list N).

Definition py (s : string) : pystr :=
  (N_of_ascii <$> list_ascii_of_string s).

(** [sorted(xs)] on one-character strings and ["".join] of the result:
    the ordering of Python strings of length one is the ordering of
    their code points. *)
Definition sorted (cs : list N) : pystr := merge_sort N.le cs.

(** Exceptions the script can die of. *)
Inductive exn :=
  | IndexError            (* opt[0] on an empty string, selected_q[i] out of range *)
  | ValueError            (* random.sample: sample larger than population or negative *)
  | ZeroDivisionError.    (* score / total_q with no question *)

(** *** Floats

    Python floats are IEEE 754 binary64, as are Rocq's primitive floats.
    [int / int] is the correctly rounded quotient; below 2^53 both
    operands convert exactly, so it is the float division of the
    conversions. *)
Definition float_of_int (z : Z) : float := PrimFloat.of_uint63 (Uint63.of_Z z).

Definition true_div (a b : Z) : float :=
  PrimFloat.div (float_of_int a) (float_of_int b).

(** [num / den] rounded to the nearest integer, ties to even ([den > 0]). *)
Definition round_half_even (num den : Z) : Z :=
  let q := num / den in
  let r := num mod den in
  match (2 * r ?= den) with
  | Lt => q
  | Gt => q + 1
  | Eq => if Z.even q then q else q + 1
  end.

(** [round(x, 1)]: CPython prints the exact binary value of [x] with one
    digit after the point (correctly rounded, ties to even) and reads the
    decimal back as the nearest float.  [t] is that decimal in tenths;
    [t] and [10] are exact floats for every |x| < 9e14, so the float
    division is the nearest float to [t / 10]. *)
Definition py_round1 (x : float) : float :=
  match Prim2SF x with
  | SpecFloat.S754_finite sg m e =>
      let t := match e with
               | Z.neg p => round_half_even (Z.pos m * 10) (2 ^ Z.pos p)
               | _ => Z.pos m * 10 * 2 ^ e
               end in
      let r := PrimFloat.div (float_of_int t) (float_of_int 10) in
      if sg then PrimFloat.opp r else r
  | _ => x
  end.

(** ** Data model *)

(** [type_label] of [load_questions]: '单选题', '多选题' or '判断题'. *)
Inductive qtype := SingleChoice | MultiChoice | TrueFalse.

(** The dict built by [load_questions] for one spreadsheet row. *)
Record question := {
  q_content : pystr;
  q_options : list pystr;
  q_answer : pystr;
  q_explanation : pystr;
  q_knowledge : pystr;
  q_type : qtype;
  q_source : pystr
}.

(** One element of [st.session_state.session_records]. *)
Record answer_trace := {
  rec_idx : nat;
  rec_content : pystr;
  rec_type : qtype;
  rec_options : list pystr;
  rec_knowledge : pystr;
  rec_source : pystr;
  rec_user_ans : pystr;
  rec_correct_ans : pystr;
  rec_is_correct : bool;
  rec_explanation : pystr
}.

(** "模式" of a history entry: "随机测验" or "错题复习". *)
Inductive mode_label := LabelRandom | LabelReview.

(** A history entry: "日期", "模式", "题目数", "得分", "正确率(%)" and
    "作答明细".  In memory the last field is a reference to a list object
    ([D := loc]); in the JSON file it is the list itself. *)
Record session_record (D : Type) := {
  h_date : pystr;
  h_mode : mode_label;
  h_count : nat;
  h_score : nat;
  h_accuracy : float;
  h_details : D
}.
Arguments h_date {D} _.
Arguments h_mode {D} _.
Arguments h_count {D} _.
Arguments h_score {D} _.
Arguments h_accuracy {D} _.
Arguments h_details {D} _.

Definition with_details {D E} (e : E) (r : session_record D) : session_record E :=
  {| h_date := h_date r; h_mode := h_mode r; h_count := h_count r;
     h_score := h_score r; h_accuracy := h_accuracy r; h_details := e |}.

(** ** Persistence *)

(** What [load_json] can find at a path. *)
Inductive file (A : Type) :=
  | Missing             (* os.path.exists is false *)
  | Unparsable          (* json.load raises *)
  | Content (a : A).
Arguments Missing {A}.
Arguments Unparsable {A}.
Arguments Content {A} a.

Definition load_json {A} (f : file A) (default_val : A) : A :=
  match f with
  | Content a => a
  | Unparsable => default_val
  | Missing => default_val
  end.

Definition save_json {A} (data : A) : file A := Content data.

(** The two shapes of [mistakes.json]: the legacy list of contents and
    the mapping from content to the number of correct answers still
    required. *)
Inductive mistakes_doc :=
  | LegacyList (l : list pystr)
  | Mapping (m : gmap pystr Z).

Record disk_t := {
  mistakes_file : file mistakes_doc;
  history_file : file (list (session_record (list answer_trace)))
}.

(** ** Session state *)

Inductive phase := Idle | Playing | Finished.        (* app_state *)
Inductive mode := ModeUnset | ModeRandom | ModeMistake.  (* play_mode: '', 'random', 'mistake' *)
Inductive msg := NoMsg | MsgMastered | MsgRemaining (remain_times : Z).

(** Addresses of the list objects that hold answer traces. *)
Abbreviation loc := nat (only parsing).

(** [st.session_state], the list objects it refers to, and the files. *)
Record state := {
  mistakes : gmap pystr Z;
  history : list (session_record loc);
  app_state : phase;
  play_mode : mode;
  selected_q : list question;
  current_idx : nat;
  score : nat;
  answered : bool;
  is_correct : bool;
  round_id : nat;
  mistake_msg : msg;
  session_records : loc;
  user_ans_display : option pystr;
  heap : list (list answer_trace);
  disk : disk_t
}.

Definition set_mistakes (v : gmap pystr Z) (s : state) : state :=
  {| mistakes := v; history := history s; app_state := app_state s; play_mode
     := play_mode s; selected_q := selected_q s; current_idx := current_idx s;
     score := score s; answered := answered s; is_correct := is_correct s;
     round_id := round_id s; mistake_msg := mistake_msg s; session_records :=
     session_records s; user_ans_display := user_ans_display s; heap := heap
     s; disk := disk s |}.

Definition set_history (v : list (session_record loc)) (s : state) : state :=
  {| mistakes := mistakes s; history := v; app_state := app_state s; play_mode
     := play_mode s; selected_q := selected_q s; current_idx := current_idx s;
     score := score s; answered := answered s; is_correct := is_correct s;
     round_id := round_id s; mistake_msg := mistake_msg s; session_records :=
     session_records s; user_ans_display := user_ans_display s; heap := heap
     s; disk := disk s |}.

Definition set_app_state (v : phase) (s : state) : state :=
  {| mistakes := mistakes s; history := history s; app_state := v; play_mode
     := play_mode s; selected_q := selected_q s; current_idx := current_idx s;
     score := score s; answered := answered s; is_correct := is_correct s;
     round_id := round_id s; mistake_msg := mistake_msg s; session_records :=
     session_records s; user_ans_display := user_ans_display s; heap := heap
     s; disk := disk s |}.

Definition set_play_mode (v : mode) (s : state) : state :=
  {| mistakes := mistakes s; history := history s; app_state := app_state s;
     play_mode := v; selected_q := selected_q s; current_idx := current_idx s;
     score := score s; answered := answered s; is_correct := is_correct s;
     round_id := round_id s; mistake_msg := mistake_msg s; session_records :=
     session_records s; user_ans_display := user_ans_display s; heap := heap
     s; disk := disk s |}.

Definition set_selected_q (v : list question) (s : state) : state :=
  {| mistakes := mistakes s; history := history s; app_state := app_state s;
     play_mode := play_mode s; selected_q := v; current_idx := current_idx s;
     score := score s; answered := answered s; is_correct := is_correct s;
     round_id := round_id s; mistake_msg := mistake_msg s; session_records :=
     session_records s; user_ans_display := user_ans_display s; heap := heap
     s; disk := disk s |}.

Definition set_current_idx (v : nat) (s : state) : state :=
  {| mistakes := mistakes s; history := history s; app_state := app_state s;
     play_mode := play_mode s; selected_q := selected_q s; current_idx := v;
     score := score s; answered := answered s; is_correct := is_correct s;
     round_id := round_id s; mistake_msg := mistake_msg s; session_records :=
     session_records s; user_ans_display := user_ans_display s; heap := heap
     s; disk := disk s |}.

Definition set_score (v : nat) (s : state) : state :=
  {| mistakes := mistakes s; history := history s; app_state := app_state s;
     play_mode := play_mode s; selected_q := selected_q s; current_idx :=
     current_idx s; score := v; answered := answered s; is_correct :=
     is_correct s; round_id := round_id s; mistake_msg := mistake_msg s;
     session_records := session_records s; user_ans_display :=
     user_ans_display s; heap := heap s; disk := disk s |}.

Definition set_answered (v : bool) (s : state) : state :=
  {| mistakes := mistakes s; history := history s; app_state := app_state s;
     play_mode := play_mode s; selected_q := selected_q s; current_idx :=
     current_idx s; score := score s; answered := v; is_correct := is_correct
     s; round_id := round_id s; mistake_msg := mistake_msg s; session_records
     := session_records s; user_ans_display := user_ans_display s; heap :=
     heap s; disk := disk s |}.

Definition set_is_correct (v : bool) (s : state) : state :=
  {| mistakes := mistakes s; history := history s; app_state := app_state s;
     play_mode := play_mode s; selected_q := selected_q s; current_idx :=
     current_idx s; score := score s; answered := answered s; is_correct := v;
     round_id := round_id s; mistake_msg := mistake_msg s; session_records :=
     session_records s; user_ans_display := user_ans_display s; heap := heap
     s; disk := disk s |}.

Definition set_round_id (v : nat) (s : state) : state :=
  {| mistakes := mistakes s; history := history s; app_state := app_state s;
     play_mode := play_mode s; selected_q := selected_q s; current_idx :=
     current_idx s; score := score s; answered := answered s; is_correct :=
     is_correct s; round_id := v; mistake_msg := mistake_msg s;
     session_records := session_records s; user_ans_display :=
     user_ans_display s; heap := heap s; disk := disk s |}.

Definition set_mistake_msg (v : msg) (s : state) : state :=
  {| mistakes := mistakes s; history := history s; app_state := app_state s;
     play_mode := play_mode s; selected_q := selected_q s; current_idx :=
     current_idx s; score := score s; answered := answered s; is_correct :=
     is_correct s; round_id := round_id s; mistake_msg := v; session_records
     := session_records s; user_ans_display := user_ans_display s; heap :=
     heap s; disk := disk s |}.

Definition set_session_records (v : loc) (s : state) : state :=
  {| mistakes := mistakes s; history := history s; app_state := app_state s;
     play_mode := play_mode s; selected_q := selected_q s; current_idx :=
     current_idx s; score := score s; answered := answered s; is_correct :=
     is_correct s; round_id := round_id s; mistake_msg := mistake_msg s;
     session_records := v; user_ans_display := user_ans_display s; heap :=
     heap s; disk := disk s |}.

Definition set_user_ans_display (v : option pystr) (s : state) : state :=
  {| mistakes := mistakes s; history := history s; app_state := app_state s;
     play_mode := play_mode s; selected_q := selected_q s; current_idx :=
     current_idx s; score := score s; answered := answered s; is_correct :=
     is_correct s; round_id := round_id s; mistake_msg := mistake_msg s;
     session_records := session_records s; user_ans_display := v; heap := heap
     s; disk := disk s |}.

Definition set_heap (v : list (list answer_trace)) (s : state) : state :=
  {| mistakes := mistakes s; history := history s; app_state := app_state s;
     play_mode := play_mode s; selected_q := selected_q s; current_idx :=
     current_idx s; score := score s; answered := answered s; is_correct :=
     is_correct s; round_id := round_id s; mistake_msg := mistake_msg s;
     session_records := session_records s; user_ans_display :=
     user_ans_display s; heap := v; disk := disk s |}.

Definition set_disk (v : disk_t) (s : state) : state :=
  {| mistakes := mistakes s; history := history s; app_state := app_state s;
     play_mode := play_mode s; selected_q := selected_q s; current_idx :=
     current_idx s; score := score s; answered := answered s; is_correct :=
     is_correct s; round_id := round_id s; mistake_msg := mistake_msg s;
     session_records := session_records s; user_ans_display :=
     user_ans_display s; heap := heap s; disk := v |}.

(** [save_json(st.session_state.mistakes, MISTAKES_FILE)] *)
Definition save_mistakes (s : state) : state :=
  set_disk {| mistakes_file := save_json (Mapping (mistakes s));
              history_file := history_file (disk s) |} s.

(** The list object a history entry refers to, as [json.dump] sees it. *)
Definition resolve (h : list (list answer_trace)) (r : session_record loc)
  : session_record (list answer_trace) :=
  with_details (default [] (h !! h_details r)) r.

(** [save_json(st.session_state.history, HISTORY_FILE)] *)
Definition save_history (s : state) : state :=
  set_disk {| mistakes_file := mistakes_file (disk s);
              history_file := save_json (resolve (heap s) <$> history s) |} s.

(** ** Initialisation of the session (lines 116-137) *)

(** [{q: 2 for q in raw_mistakes}] *)
Definition migrate (raw_mistakes : list pystr) : gmap pystr Z :=
  foldl (λ d q, <[q := 2]> d) ∅ raw_mistakes.

Definition boot (d : disk_t) : state :=
  let raw_mistakes := load_json (mistakes_file d) (Mapping ∅) in
  let '(m, d1) :=
    match raw_mistakes with
    | LegacyList l =>
        let m := migrate l in
        (m, {| mistakes_file := save_json (Mapping m);
               history_file := history_file d |})
    | Mapping m => (m, d)
    end in
  let loaded := load_json (history_file d1) [] in
  {| mistakes := m;
     history := imap (λ i r, with_details i r) loaded;
     app_state := Idle;
     play_mode := ModeUnset;
     selected_q := [];
     current_idx := 0;
     score := 0;
     answered := false;
     is_correct := false;
     round_id := 0;
     mistake_msg := NoMsg;
     session_records := length loaded;
     user_ans_display := None;
     heap := (h_details <$> loaded) ++ [[]];
     disk := d1 |}.

(** ** Inputs of one run *)

Inductive page_t := PageHome | PageRandom | PageMistake.

Inductive button :=
  | BtnForceReset     (* 🔄 强制重置当前进度 *)
  | BtnSync           (* 📥 同步最新 Excel 题库 *)
  | BtnStart          (* 开始测验 *)
  | BtnStartMistake   (* 开始攻克错题 *)
  | BtnSubmit         (* 提交答案 *)
  | BtnNext           (* 下一题 *)
  | BtnFinish         (* 📝 交卷并保存成绩 *)
  | BtnBack.          (* 🔙 返回主页查看历史试卷 *)

Global Instance button_eq_dec : EqDecision button.
Proof. solve_decision. Defined.

(** The widget values and the environment a run reads. *)
Record inputs := {
  page : page_t;                       (* sidebar radio *)
  clicked : option button;             (* the button whose click started the run *)
  num_input : Z;                       (* number typed in the number_input *)
  checkbox : nat → nat → nat → bool;   (* value of checkbox cb_{round_id}_{current_idx}_{i} *)
  radio : option pystr;                (* st.radio(..., index=None) *)
  now : pystr;                         (* datetime.now().strftime(...) *)
  rng : nat → nat;                     (* the i-th raw draw of the random generator *)
  all_questions : list question;       (* load_questions(), as cached *)
  xlsx_questions : list question       (* what load_questions() reads once the cache is cleared *)
}.

Definition pressed (u : inputs) (b : button) : bool :=
  bool_decide (clicked u = Some b).

(** [st.number_input(label, min_value, max_value, value, step=1)]: the
    widget returns the number typed when it lies in its range, and its
    default [value] otherwise; it never raises on what is typed. *)
Definition number_input (min_value max_value value typed : Z) : Z :=
  if bool_decide (min_value ≤ typed ≤ max_value) then typed else value.

(** [random.sample(population, k)], the selection loop of CPython:
    [j = randbelow(n - i); result[i] = pool[j]; pool[j] = pool[n - i - 1]].
    The live part of [pool] is the first [n - i] cells, kept here as the
    whole list. *)
Fixpoint sample_loop {A} (rng : nat → nat) (i k : nat) (pool : list A) : list A :=
  match k with
  | O => []
  | S k' =>
      let j := (rng i `mod` length pool)%nat in
      match pool !! j, last pool with
      | Some x, Some y => x :: sample_loop rng (S i) k' (removelast (<[j := y]> pool))
      | _, _ => []
      end
  end.

Definition random_sample {A} (rng : nat → nat) (population : list A) (k : Z)
  : option (list A) :=
  if bool_decide (0 ≤ k ≤ Z.of_nat (length population))
  then Some (sample_loop rng 0 (Z.to_nat k) population)
  else None.

(** ** The script *)

Inductive outcome :=
  | Completed            (* the run reached the end of the file *)
  | Rerun                (* st.rerun() *)
  | Stopped              (* st.stop() *)
  | Raised (e : exn).

(** Lines 221-228 and 249-256: both start buttons. *)
Definition start_quiz (u : inputs) (md : mode) (pool : list question) (num : Z)
    (s : state) : outcome * state :=
  match random_sample (rng u) pool num with
  | None => (Raised ValueError, s)
  | Some sample =>
      let s := set_selected_q sample s in
      let s := set_play_mode md s in
      let s := set_app_state Playing s in
      let s := set_current_idx 0 s in
      let s := set_score 0 s in
      let s := set_answered false s in
      let s := set_round_id (round_id s + 1) s in
      let s := set_session_records (length (heap s)) (set_heap (heap s ++ [[]]) s) in
      (Rerun, s)
  end.

(** Lines 211-257: the pages of the idle state. *)
Definition idle_block (u : inputs) (s : state) : outcome * state :=
  match all_questions u with
  | [] => (Stopped, s)
  | _ =>
    match page u with
    | PageRandom =>
        let default_q := Z.min 20 (Z.of_nat (length (all_questions u))) in
        let num_q :=
          number_input 1 (Z.of_nat (length (all_questions u))) default_q (num_input u) in
        if pressed u BtnStart
        then start_quiz u ModeRandom (all_questions u) num_q s
        else (Completed, s)
    | PageMistake =>
        if bool_decide (mistakes s = ∅) then (Completed, s)
        else
          let mistake_pool :=
            filter (λ q, is_Some (mistakes s !! q_content q)) (all_questions u) in
          match mistake_pool with
          | [] => (Stopped, save_mistakes (set_mistakes ∅ s))
          | _ =>
            let num_m :=
              number_input 1 (Z.of_nat (length mistake_pool))
                (Z.of_nat (length mistake_pool)) (num_input u) in
            if pressed u BtnStartMistake
            then start_quiz u ModeMistake mistake_pool num_m s
            else (Completed, s)
          end
    | PageHome => (Completed, s)
    end
  end.

Definition is_multi (q : question) : bool :=
  match q_type q with MultiChoice => true | _ => false end.

(** Lines 279-282: the labels [opt[0]] of the ticked checkboxes, in the
    order of the options. *)
Fixpoint collect_checked (cb : nat → bool) (i : nat) (opts : list pystr)
  : option (list N) :=
  match opts with
  | [] => Some []
  | opt :: rest =>
      if cb i then
        match opt with
        | [] => None
        | c :: _ => (c ::.) <$> collect_checked cb (S i) rest
        end
      else collect_checked cb (S i) rest
  end.

(** Lines 288-298: [user_ans_str], or [None] for [st.stop()]. *)
Definition user_answer (q : question) (user_ans_list : list N)
    (user_ans_single : option pystr) : option pystr :=
  if is_multi q then
    match user_ans_list with
    | [] => None
    | _ => Some (sorted user_ans_list)
    end
  else
    match user_ans_single with
    | None => None
    | Some [] => None
    | Some (c :: _) => Some [c]
    end.

(** Lines 306-321: score and mistake ledger. *)
Definition grade (q : question) (user_ans_str correct_ans_str : pystr)
    (s : state) : state :=
  if bool_decide (user_ans_str = correct_ans_str) then
    let s := set_is_correct true s in
    let s := set_score (score s + 1) s in
    match play_mode s, mistakes s !! q_content q with
    | ModeMistake, Some v =>
        let remain_times := v - 1 in
        let m := <[q_content q := remain_times]> (mistakes s) in
        let s :=
          if remain_times <=? 0
          then set_mistake_msg MsgMastered (set_mistakes (delete (q_content q) m) s)
          else set_mistake_msg (MsgRemaining remain_times) (set_mistakes m s) in
        save_mistakes s
    | _, _ => s
    end
  else
    let s := set_is_correct false s in
    let s := set_mistakes (<[q_content q := 2]> (mistakes s)) s in
    save_mistakes s.

(** Lines 323-334: [session_records.append({...})], on the list object. *)
Definition append_record (q : question) (user_ans_str correct_ans_str : pystr)
    (s : state) : state :=
  let r := {| rec_idx := current_idx s + 1;
              rec_content := q_content q;
              rec_type := q_type q;
              rec_options := q_options q;
              rec_knowledge := q_knowledge q;
              rec_source := q_source q;
              rec_user_ans := user_ans_str;
              rec_correct_ans := correct_ans_str;
              rec_is_correct := is_correct s;
              rec_explanation := q_explanation q |} in
  set_heap (alter (λ l, l ++ [r]) (session_records s) (heap s)) s.

(** Lines 287-336: the submit button. *)
Definition submit_answer (q : question) (user_ans_list : list N)
    (user_ans_single : option pystr) (s : state) : outcome * state :=
  match user_answer q user_ans_list user_ans_single with
  | None => (Stopped, s)
  | Some user_ans_str =>
      let correct_ans_str := sorted (q_answer q) in
      let s := set_answered true s in
      let s := set_user_ans_display (Some user_ans_str) s in
      let s := set_mistake_msg NoMsg s in
      let s := grade q user_ans_str correct_ans_str s in
      let s := append_record q user_ans_str correct_ans_str s in
      (Rerun, s)
  end.

(** Lines 262-362: the playing state. *)
Definition playing_block (u : inputs) (s : state) : outcome * state :=
  let total_q := length (selected_q s) in
  match selected_q s !! current_idx s with
  | None => (Raised IndexError, s)
  | Some q =>
    let widgets :=
      if is_multi q
      then (λ l, (l, None)) <$>
           collect_checked (checkbox u (round_id s) (current_idx s)) 0 (q_options q)
      else Some ([], radio u) in
    match widgets with
    | None => (Raised IndexError, s)
    | Some (user_ans_list, user_ans_single) =>
      if negb (answered s) then
        if pressed u BtnSubmit
        then submit_answer q user_ans_list user_ans_single s
        else (Completed, s)
      else if Z.of_nat (current_idx s) <? Z.of_nat total_q - 1 then
        if pressed u BtnNext
        then (Rerun, set_answered false (set_current_idx (current_idx s + 1) s))
        else (Completed, s)
      else
        if pressed u BtnFinish
        then (Rerun, set_app_state Finished s)
        else (Completed, s)
    end
  end.

(** Lines 369-380: [accuracy] and the history entry [record]. *)
Definition summary_record (u : inputs) (s : state) : session_record loc :=
  let total_q := length (selected_q s) in
  let accuracy :=
    py_round1 (PrimFloat.mul (true_div (Z.of_nat (score s)) (Z.of_nat total_q))
                             (float_of_int 100)) in
  {| h_date := now u;
     h_mode := match play_mode s with ModeRandom => LabelRandom | _ => LabelReview end;
     h_count := total_q;
     h_score := score s;
     h_accuracy := accuracy;
     h_details := session_records s |}.

(** Lines 381-382: [history.append(record)] and [save_json(history, ...)]. *)
Definition archive (u : inputs) (s : state) : state :=
  save_history (set_history (history s ++ [summary_record u s]) s).

(** Lines 367-398: the finished state. *)
Definition finished_block (u : inputs) (s : state) : outcome * state :=
  match length (selected_q s) with
  | O => (Raised ZeroDivisionError, s)
  | _ =>
    let s := archive u s in
    if pressed u BtnBack
    then (Rerun, set_app_state Idle s)
    else (Completed, s)
  end.

(** Lines 164-206: the home page only displays. *)
Definition home_block (u : inputs) (s : state) : outcome * state :=
  match all_questions u with
  | [] => (Stopped, s)
  | _ => (Completed, s)
  end.

Definition is_home (p : page_t) : bool :=
  match p with PageHome => true | _ => false end.

Definition is_playing (a : phase) : bool :=
  match a with Playing => true | _ => false end.

(** One run of the file, from the sidebar (line 142) to the end. *)
Definition script_pass (u : inputs) (s : state) : outcome * state :=
  if pressed u BtnForceReset then (Rerun, set_app_state Idle s)
  else if pressed u BtnSync then (Rerun, set_app_state Idle s)
  else if is_home (page u) && negb (is_playing (app_state s)) then home_block u s
  else
    match app_state s with
    | Idle => idle_block u s
    | Playing => playing_block u s
    | Finished => finished_block u s
    end.

(** The run that [st.rerun()] starts: no button is pressed, and the
    question bank is read again when the cache was cleared. *)
Definition after_rerun (u : inputs) : inputs :=
  {| page := page u;
     clicked := None;
     num_input := num_input u;
     checkbox := checkbox u;
     radio := radio u;
     now := now u;
     rng := rng u;
     all_questions := if pressed u BtnSync then xlsx_questions u else all_questions u;
     xlsx_questions := xlsx_questions u |}.

(** The reaction to one user event. *)
Definition run (u : inputs) (s : state) : outcome * state :=
  match script_pass u s with
  | (Rerun, s1) => script_pass (after_rerun u) s1
  | r => r
  end.

(** The states a session can be in. *)
Inductive reachable : state → Prop :=
  | reach_boot d : reachable (boot d)
  | reach_run u s : reachable s → reachable (run u s).2.

(** ** Statement vocabulary *)

(** The user has made no choice for question [q]: no checkbox of the
    question is ticked, or the radio group has no selection. *)
Definition nothing_selected (u : inputs) (s : state) (q : question) : Prop :=
  if is_multi q
  then ∀ i, (i < length (q_options q))%nat →
            checkbox u (round_id s) (current_idx s) i = false
  else radio u = None.

(** ** A small question bank and session, for worked examples *)

Definition demo_question (c : string) (t : qtype) (a : string) : question :=
  {| q_content := py c;
     q_options := [py "A. alpha"; py "B. beta"; py "C. gamma"; py "D. delta"];
     q_answer := py a;
     q_explanation := py "see the handbook";
     q_knowledge := py "bonding";
     q_type := t;
     q_source := py "bank.xlsx" |}.

Definition demo_bank : list question :=
  [ demo_question "Q1" SingleChoice "A";
    demo_question "Q2" MultiChoice "BA";
    demo_question "Q3" SingleChoice "C";
    demo_question "Q4" TrueFalse "B";
    demo_question "Q5" MultiChoice "ACD" ].

Definition demo_disk : disk_t :=
  {| mistakes_file := Content (LegacyList [py "Q1"; py "Q2"]);
     history_file := Missing |}.

(** A user action: the page shown, the button clicked, the number typed,
    the ticked checkbox indices of the current question and the radio
    choice. *)
Definition demo_inputs (p : page_t) (b : option button) (n : Z)
    (ticks : list nat) (r : option string) : inputs :=
  {| page := p;
     clicked := b;
     num_input := n;
     checkbox := λ _ _ i, bool_decide (i ∈ ticks);
     radio := py <$> r;
     now := py "2024-05-01 09:30:00";
     rng := λ _, 0%nat;
     all_questions := demo_bank;
     xlsx_questions := demo_bank |}.

(** A random quiz over the whole bank has just started: with the draws
    above the questions come in the order Q1, Q5, Q4, Q3, Q2. *)
Definition demo_started : state :=
  (run (demo_inputs PageRandom (Some BtnStart) 5 [] None) (boot demo_disk)).2.

(** A review of the two ledger questions has just started (Q1, then Q2). *)
Definition demo_review : state :=
  (run (demo_inputs PageMistake (Some BtnStartMistake) 2 [] None) (boot demo_disk)).2.

(** A review of Q1 alone, one correct answer away from mastery. *)
Definition demo_half_way : state :=
  (run (demo_inputs PageMistake (Some BtnStartMistake) 1 [] None)
       (boot {| mistakes_file := Content (Mapping {[ py "Q1" := 1 ]});
                history_file := Missing |})).2.

(** The option labels the user selected for [q]: the labels of the ticked
    checkboxes, or the label of the radio choice. *)
Definition selected_labels (q : question) (user_ans_list : list N)
    (user_ans_single : option pystr) : list N :=
  if is_multi q then user_ans_list
  else match user_ans_single with
       | Some (c :: _) => [c]
       | _ => []
       end.

(** [sample] consists of cells of [pool] taken at pairwise different
    positions. *)
Definition drawn_from {A} (sample pool : list A) : Prop :=
  ∃ picks : list (nat * A),
    sample = picks.*2 ∧ NoDup picks.*1 ∧
    ∀ i x, (i, x) ∈ picks → pool !! i = Some x.

(** What the start of an attempt of [count] questions from [pool] in mode
    [md] establishes, from state [s] to state [s']. *)
Definition starts_attempt (md : mode) (pool : list question) (count : Z)
    (s s' : state) : Prop :=
  app_state s' = Playing ∧
  play_mode s' = md ∧
  length (selected_q s') = Z.to_nat count ∧
  drawn_from (selected_q s') pool ∧
  score s' = 0%nat ∧
  current_idx s' = 0%nat ∧
  answered s' = false ∧
  round_id s' = (round_id s + 1)%nat ∧
  heap s' !! session_records s' = Some [] ∧
  mistakes s' = mistakes s ∧
  history s' = history s ∧
  disk s' = disk s.


(** The state an accepted submission of the answer string [a] to [q]
    leaves (lines 300-334). *)
Definition answered_state (q : question) (a : pystr) (s : state) : state :=
  append_record q a (sorted (q_answer q))
    (grade q a (sorted (q_answer q))
       (set_mistake_msg NoMsg (set_user_ans_display (Some a) (set_answered true s)))).

(** The effects one pass of the script can have on the state. *)
Inductive pass_step : state → state → Prop :=
  | step_none s :
      pass_step s s
  | step_reset s :
      pass_step s (set_app_state Idle s)
  | step_start u md pool num s s' :
      app_state s = Idle → 1 ≤ num →
      start_quiz u md pool num s = (Rerun, s') →
      pass_step s s'
  | step_drop_stale s :
      app_state s = Idle →
      pass_step s (save_mistakes (set_mistakes ∅ s))
  | step_submit q a s :
      app_state s = Playing →
      selected_q s !! current_idx s = Some q →
      answered s = false →
      pass_step s (answered_state q a s)
  | step_next s :
      app_state s = Playing → answered s = true →
      (current_idx s + 1 < length (selected_q s))%nat →
      pass_step s (set_answered false (set_current_idx (current_idx s + 1) s))
  | step_finish s :
      app_state s = Playing → answered s = true →
      (current_idx s + 1 = length (selected_q s))%nat →
      pass_step s (set_app_state Finished s)
  | step_archive u s :
      app_state s = Finished →
      pass_step s (archive u s)
  | step_archive_back u s :
      app_state s = Finished →
      pass_step s (set_app_state Idle (archive u s)).

(** The bookkeeping of the attempt in progress: one trace per answered
    question, in a list object of its own, and a score that counts the
    correct ones. *)
Definition attempt_ok (s : state) : Prop :=
  app_state s ≠ Idle →
  ∃ recs,
    heap s !! session_records s = Some recs ∧
    length recs = (current_idx s + if answered s then 1 else 0)%nat ∧
    score s = length (filter (λ r, rec_is_correct r = true) recs) ∧
    (current_idx s < length (selected_q s))%nat ∧
    (app_state s = Finished →
       answered s = true ∧ (current_idx s + 1)%nat = length (selected_q s)).

(** Every reference is to an allocated list, and while an attempt is
    being played no history entry shares its trace list. *)
Definition heap_ok (s : state) : Prop :=
  (session_records s < length (heap s))%nat ∧
  (∀ r, r ∈ history s → (h_details r < length (heap s))%nat) ∧
  (app_state s = Playing → ∀ r, r ∈ history s → h_details r ≠ session_records s).

(** The history as [json.dump] would print it. *)
Definition history_value (s : state) : list (session_record (list answer_trace)) :=
  resolve (heap s) <$> history s.

(** The session after a list of user events. *)
Definition play (events : list inputs) (s : state) : state :=
  foldl (λ s u, (run u s).2) s events.

(** The five questions of [demo_started] answered in turn: Q1 right,
    Q5 right (A, C and D ticked), Q4 wrong, Q3 right, Q2 wrong (only A
    ticked). *)
Definition demo_answers : list inputs :=
  [ demo_inputs PageRandom (Some BtnSubmit) 5 [] (Some "A. alpha"%string);
    demo_inputs PageRandom (Some BtnNext) 5 [] None;
    demo_inputs PageRandom (Some BtnSubmit) 5 [0; 2; 3]%nat None;
    demo_inputs PageRandom (Some BtnNext) 5 [] None;
    demo_inputs PageRandom (Some BtnSubmit) 5 [] (Some "A. alpha"%string);
    demo_inputs PageRandom (Some BtnNext) 5 [] None;
    demo_inputs PageRandom (Some BtnSubmit) 5 [] (Some "C. gamma"%string);
    demo_inputs PageRandom (Some BtnNext) 5 [] None;
    demo_inputs PageRandom (Some BtnSubmit) 5 [0]%nat None ].

Definition demo_last_answered : state := play demo_answers demo_started.

(** ** Further invariants of a session *)

(** The files hold what the session holds: reading them back gives the
    ledger and the history of the session. *)
Definition disk_ok (s : state) : Prop :=
  load_json (mistakes_file (disk s)) (Mapping ∅) = Mapping (mistakes s) ∧
  load_json (history_file (disk s)) [] = history_value s.

(** Every ledger entry asks for one or two more correct answers. *)
Definition ledger_ok (s : state) : Prop :=
  ∀ k v, mistakes s !! k = Some v → 1 ≤ v ≤ 2.

(** [t] is the trace of an answer to [q], asked as question number
    [i + 1]. *)
Definition trace_of (i : nat) (q : question) (t : answer_trace) : Prop :=
  rec_idx t = (i + 1)%nat ∧
  rec_content t = q_content q ∧
  rec_type t = q_type q ∧
  rec_options t = q_options q ∧
  rec_knowledge t = q_knowledge q ∧
  rec_source t = q_source q ∧
  rec_explanation t = q_explanation q ∧
  rec_correct_ans t = sorted (q_answer q) ∧
  rec_is_correct t = bool_decide (rec_user_ans t = rec_correct_ans t).

(** The trace list of the attempt in progress follows the selected
    questions, position by position. *)
Definition traces_ok (s : state) : Prop :=
  app_state s ≠ Idle →
  ∃ recs,
    heap s !! session_records s = Some recs ∧
    ∀ i t, recs !! i = Some t → ∃ q, selected_q s !! i = Some q ∧ trace_of i q t.

(** ** The review panel (lines 33-58) *)

(** How [render_traceback_records] shows an option of an answered
    question: [st.success], [st.info], [st.error] or grey text. *)
Inductive mark :=
  | ChosenRight      (* ✅ 您的选择 *)
  | MissedRight      (* 🎯 正确答案 *)
  | ChosenWrong      (* ❌ 您的错选 *)
  | Unmarked.

(** What the panel puts on the page. *)
Inductive element :=
  | Header (idx : nat) (icon : bool) (t : qtype) (content : pystr)
  | Caption (source knowledge : pystr)
  | OptionLine (m : mark) (opt : pystr)
  | Rule
  | Explanation (text : pystr).

(** [opt_letter in s] for a one-character [opt_letter]. *)
Definition letter_in (c : N) (s : pystr) : bool := bool_decide (c ∈ s).

Definition mark_of (rec : answer_trace) (opt_letter : N) : mark :=
  if letter_in opt_letter (rec_correct_ans rec) && letter_in opt_letter (rec_user_ans rec)
  then ChosenRight
  else if letter_in opt_letter (rec_correct_ans rec) then MissedRight
  else if letter_in opt_letter (rec_user_ans rec) then ChosenWrong
  else Unmarked.

(** Lines 45-54: the option lines, and whether the loop ran to its end
    ([opt[0]] raises on an empty option). *)
Fixpoint render_options (rec : answer_trace) (opts : list pystr) : list element * bool :=
  match opts with
  | [] => ([], true)
  | opt :: rest =>
      match opt with
      | [] => ([], false)
      | opt_letter :: _ =>
          let '(lines, ok) := render_options rec rest in
          (OptionLine (mark_of rec opt_letter) opt :: lines, ok)
      end
  end.

(** Lines 36-58 for one record; every trace written by the submit
    handler has its source and its knowledge tag, so the defaults of
    [rec.get] do not show. *)
Definition render_record (rec : answer_trace) : list element * bool :=
  let head := [Header (rec_idx rec) (rec_is_correct rec) (rec_type rec) (rec_content rec);
               Caption (rec_source rec) (rec_knowledge rec)] in
  let '(lines, ok) := render_options rec (rec_options rec) in
  if ok then (head ++ lines ++ [Rule; Explanation (rec_explanation rec); Rule], true)
  else (head ++ lines, false).

Fixpoint render_all (recs : list answer_trace) : list element * bool :=
  match recs with
  | [] => ([], true)
  | rec :: rest =>
      let '(es, ok) := render_record rec in
      if ok then let '(es', ok') := render_all rest in (es ++ es', ok')
      else (es, false)
  end.

Definition render_traceback_records (records : list answer_trace) (reverse : bool)
  : list element * bool :=
  render_all (if reverse then rev records else records).

(** The trace of the first answer of [demo_answers]. *)
Definition demo_first_trace : answer_trace :=
  {| rec_idx := 1;
     rec_content := py "Q1";
     rec_type := SingleChoice;
     rec_options := [py "A. alpha"; py "B. beta"; py "C. gamma"; py "D. delta"];
     rec_knowledge := py "bonding";
     rec_source := py "bank.xlsx";
     rec_user_ans := py "A";
     rec_correct_ans := py "A";
     rec_is_correct := true;
     rec_explanation := py "see the handbook" |}.

(** ** Loading the question bank (lines 63-109) *)

(** [prefix] is a prefix of [s]: [s.startswith(prefix)]. *)
Fixpoint starts_with (prefix s : pystr) : bool :=
  match prefix, s with
  | [], _ => true
  | _ :: _, [] => false
  | p :: prefix', c :: s' => bool_decide (p = c) && starts_with prefix' s'
  end.

(** [needle in hay] for strings. *)
Fixpoint contains (needle hay : pystr) : bool :=
  starts_with needle hay ||
  match hay with
  | [] => false
  | _ :: hay' => contains needle hay'
  end.

(** A cell of a sheet, as the loader sees it: missing ([NaN], for which
    [pd.notna] is false and [str] is ['nan']) or a value, given by its
    [str]. *)
Inductive cell := NaN | Val (text : pystr).

(** A row of a sheet after the renaming of the columns: the cell of each
    column the sheet has. *)
Definition row := pystr → option cell.

Definition str_of (c : cell) : pystr :=
  match c with
  | NaN => [110; 97; 110]%N          (* 'nan' *)
  | Val text => text
  end.

(** [str(row.get(key, default))] *)
Definition get_str (r : row) (key default : pystr) : pystr :=
  match r key with
  | Some c => str_of c
  | None => default
  end.

Definition col_type : pystr := [39064; 22411]%N.                  (* '题型' *)
Definition col_stem : pystr := [39064; 24178]%N.                  (* '题干' *)
Definition col_answer : pystr := [27491; 30830; 31572; 26696]%N.  (* '正确答案' *)
Definition col_option (k : N) : pystr := [36873; 39033; k]%N.     (* f'选项{k}' *)
Definition col_explanation : pystr := [35299; 26512]%N.           (* '解析' *)
Definition col_knowledge : pystr := [30693; 35782; 28857]%N.      (* '知识点' *)
Definition col_knowledge_class : pystr :=
  [30693; 35782; 28857; 20998; 31867]%N.                          (* '知识点分类' *)

Definition txt_single : pystr := [21333; 36873]%N.            (* '单选' *)
Definition txt_multi : pystr := [22810; 36873]%N.             (* '多选' *)
Definition txt_judge : pystr := [21028; 26029]%N.             (* '判断' *)
Definition txt_no_explanation : pystr := [26080; 35299; 26512]%N.  (* '无解析' *)
Definition txt_none : pystr := [26080]%N.                     (* '无' *)
Definition option_true : pystr := [65; 46; 32; 27491; 30830]%N.    (* "A. 正确" *)
Definition option_false : pystr := [66; 46; 32; 38169; 35823]%N.   (* "B. 错误" *)

(** ['对', '正确', '√', 'T', 'TRUE'] and ['错', '错误', '×', 'F', 'FALSE'] *)
Definition answers_true : list pystr :=
  [[23545]; [27491; 30830]; [8730]; [84]; [84; 82; 85; 69]]%N.
Definition answers_false : list pystr :=
  [[38169]; [38169; 35823]; [215]; [70]; [70; 65; 76; 83; 69]]%N.

(** ['A', 'B', 'C', 'D'] *)
Definition option_letters : list N := [65; 66; 67; 68]%N.

(** The option of letter [k] as [f"{k}. {row[...]}"], when the sheet has
    the column and the cell is not missing. *)
Definition option_of (r : row) (k : N) : list pystr :=
  match r (col_option k) with
  | Some (Val v) => [[k; 46; 32]%N ++ v]
  | _ => []
  end.

(** [.replace(" ", "")] *)
Definition remove_spaces (s : pystr) : pystr := filter (λ c, c ≠ 32%N) s.

Section load.

(** [str.upper] and [str.strip], tables of the Unicode database. *)
Variable upper : pystr → pystr.
Variable strip : pystr → pystr.

(** Lines 84: the answer cell, normalised. *)
Definition normal_answer (answer : pystr) : pystr :=
  remove_spaces (upper (strip answer)).

(** Lines 80-106: the question made of a row of the sheet [f], if any. *)
Definition parse_row (f : pystr) (r : row) : option question :=
  let q_type := get_str r col_type [] in
  if contains txt_single q_type || contains txt_multi q_type || contains txt_judge q_type
  then
    match r col_stem, r col_answer with
    | Some (Val stem), Some (Val answer) =>
        let options := option_letters ≫= option_of r in
        let ans := normal_answer answer in
        let '(options, ans) :=
          if contains txt_judge q_type && bool_decide (options = [])
          then ([option_true; option_false],
                if bool_decide (ans ∈ answers_true) then [65%N]
                else if bool_decide (ans ∈ answers_false) then [66%N]
                else ans)
          else (options, ans) in
        let type_label :=
          if contains txt_multi q_type then MultiChoice
          else if contains txt_judge q_type then TrueFalse
          else SingleChoice in
        Some {| q_content := strip stem;
                q_options := options;
                q_answer := ans;
                q_explanation := get_str r col_explanation txt_no_explanation;
                q_knowledge :=
                  get_str r col_knowledge (get_str r col_knowledge_class txt_none);
                q_type := type_label;
                q_source := f |}
    | _, _ => None
    end
  else None.

(** Lines 65-109: [files] is what [glob.glob("*.xlsx")] returns and
    [read_excel f] the rows of sheet [f], or [None] when reading it
    raises. *)
Definition load_questions (files : list pystr) (read_excel : pystr → option (list row))
  : list question :=
  let files := filter (λ f, starts_with [126; 36]%N f = false) files in
  match files with
  | [] => []
  | _ =>
      files ≫=
        (λ f, match read_excel f with
              | Some rows => omap (parse_row f) rows
              | None => []
              end)
  end.

End load.

(** A well-formed option list: the texts of letters A to D in increasing
    order of letter, each as ["K. text"]. *)
Definition lettered (opts : list pystr) : Prop :=
  ∃ picks : list (N * pystr),
    opts = (λ p, [p.1; 46; 32]%N ++ p.2) <$> picks ∧
    picks.*1 `sublist_of` option_letters.

(** A sheet row for worked examples: type, stem, answer, option cells. *)
Definition demo_row (type stem answer : pystr) (cells : list (N * pystr)) : row :=
  λ key,
    if bool_decide (key = col_type) then Some (Val type)
    else if bool_decide (key = col_stem) then Some (Val stem)
    else if bool_decide (key = col_answer) then Some (Val answer)
    else match list_find (λ p, col_option p.1 = key) cells with
         | Some (_, (_, v)) => Some (Val v)
         | None => None
         end.

(** A sheet with one true/false row, without option cells and with the
    answer written "T", next to an Excel lock file. *)
Definition demo_files : list pystr := [py "~$bank.xlsx"; py "bank.xlsx"].

Definition demo_true_false_row : row :=
  demo_row (txt_judge ++ [39064]%N) (py "Is the bond ionic?") (py "T") [].

Definition demo_read_excel (f : pystr) : option (list row) :=
  if bool_decide (f = py "bank.xlsx") then Some [demo_true_false_row] else None.

Definition demo_true_false_question : question :=
  {| q_content := py "Is the bond ionic?";
     q_options := [option_true; option_false];
     q_answer := py "A";
     q_explanation := txt_no_explanation;
     q_knowledge := txt_none;
     q_type := TrueFalse;
     q_source := py "bank.xlsx" |}.

(** ** Rounding to one decimal, as a specification *)

(** The float of [t] tenths: the float nearest to the decimal [t / 10]. *)
Definition tenths (t : Z) : float :=
  PrimFloat.div (float_of_int t) (float_of_int 10).

(** [t] tenths is the decimal with one digit after the point that is
    nearest to [m * 2 ^ e], the even one of the two when they are equally
    near. *)
Definition nearest_tenth (m : positive) (e t : Z) : Prop :=
  match e with
  | Z.neg p =>
      2 * Z.abs (10 * Z.pos m - t * 2 ^ Z.pos p) ≤ 2 ^ Z.pos p ∧
      (2 * Z.abs (10 * Z.pos m - t * 2 ^ Z.pos p) = 2 ^ Z.pos p → Z.even t = true)
  | _ => t = 10 * Z.pos m * 2 ^ e
  end.

(** [r] is [x] rounded to one decimal: for a finite [x] other than zero,
    of sign [sg] and absolute value [m * 2 ^ e], the float of the nearest
    tenth with the sign of [x]; zeros, infinities and NaN are their own
    roundings. *)
Definition round_to_one_decimal (x r : float) : Prop :=
  match Prim2SF x with
  | SpecFloat.S754_finite sg m e =>
      ∃ t, nearest_tenth m e t ∧
           r = if sg then PrimFloat.opp (tenths t) else tenths t
  | _ => r = x
  end.

(** The percentage [score / total * 100] of the finished block is, to one
    decimal, the float of [t] tenths, and [t / 10] is nearest to the exact
    percentage: checked for one score, one total and one [t]. *)
Definition accuracy_near (score total : nat) (t : Z) : bool :=
  PrimFloat.Leibniz.eqb
    (py_round1 (PrimFloat.mul (true_div (Z.of_nat score) (Z.of_nat total))
                              (float_of_int 100)))
    (tenths t) &&
  (2 * Z.abs (1000 * Z.of_nat score - t * Z.of_nat total) <=? Z.of_nat total).

(** The nearest tenth is one of the two around the exact percentage. *)
Definition accuracy_checked (score total : nat) : bool :=
  accuracy_near score total (1000 * Z.of_nat score / Z.of_nat total) ||
  accuracy_near score total (1000 * Z.of_nat score / Z.of_nat total + 1).

(** The check for every score up to [total], and for every total from 1
    to [n]. *)
Definition accuracy_checked_total (total : nat) : bool :=
  forallb (λ score, accuracy_checked score total) (seq 0 (S total)).

Definition accuracy_checked_upto (n : nat) : bool :=
  forallb accuracy_checked_total (seq 1 n).

(** The count of a start: the value of the number input of the random
    page (lines 216-219) and of the review page (lines 243-247). *)
Definition start_count (u : inputs) (md : mode) (pool : list question) : Z :=
  match md with
  | ModeRandom =>
      number_input 1 (Z.of_nat (length pool)) (Z.min 20 (Z.of_nat (length pool)))
                   (num_input u)
  | _ =>
      number_input 1 (Z.of_nat (length pool)) (Z.of_nat (length pool)) (num_input u)
  end.

(** * Properties *)

(** ** Buttons and quiet passes *)

Lemma pressed_clicked u b b' :
  clicked u = Some b → pressed u b' = bool_decide (b = b').
Proof.
  intros Hc. unfold pressed. rewrite Hc.
  apply bool_decide_ext. split; congruence.
Qed.

Lemma pressed_unclicked u b : clicked u = None → pressed u b = false.
Proof. intros Hc. unfold pressed. rewrite Hc. by apply bool_decide_eq_false. Qed.

Lemma after_rerun_unclicked u b : pressed (after_rerun u) b = false.
Proof. by apply pressed_unclicked. Qed.

(** Without a click the playing page only displays. *)
Lemma playing_block_quiet u s :
  clicked u = None → (playing_block u s).2 = s.
Proof.
  intros Hc. unfold playing_block.
  destruct (selected_q s !! current_idx s) as [q|]; [|done].
  destruct (if is_multi q then _ else _) as [[l r]|]; [|done].
  rewrite !pressed_unclicked by done.
  by repeat case_match.
Qed.

Lemma script_pass_quiet_playing u s :
  clicked u = None → app_state s = Playing → (script_pass u s).2 = s.
Proof.
  intros Hc Hp. unfold script_pass.
  rewrite !pressed_unclicked by done. rewrite Hp, andb_false_r.
  by apply playing_block_quiet.
Qed.

(** A pass in which no button is pressed never asks for a rerun, so the
    two passes of [run] are the whole reaction. *)
Lemma script_pass_unclicked_settles u s :
  clicked u = None → (script_pass u s).1 ≠ Rerun.
Proof.
  intros Hc. unfold script_pass, home_block, idle_block, playing_block, finished_block.
  rewrite !pressed_unclicked by done.
  repeat (case_match; simpl; try done).
Qed.

Lemma run_rerun u s s1 :
  script_pass u s = (Rerun, s1) → run u s = script_pass (after_rerun u) s1.
Proof. intros Hpass. unfold run. by rewrite Hpass. Qed.

Lemma run_settled u s o s1 :
  script_pass u s = (o, s1) → o ≠ Rerun → run u s = (o, s1).
Proof. intros Hpass Ho. unfold run. rewrite Hpass. by destruct o. Qed.

(** The submit button in the playing state, while the question is open. *)
Lemma script_pass_submit u s q :
  app_state s = Playing →
  selected_q s !! current_idx s = Some q →
  answered s = false →
  clicked u = Some BtnSubmit →
  script_pass u s =
    match (if is_multi q
           then (λ l, (l, None)) <$>
                collect_checked (checkbox u (round_id s) (current_idx s)) 0 (q_options q)
           else Some ([], radio u)) with
    | None => (Raised IndexError, s)
    | Some (l, r) => submit_answer q l r s
    end.
Proof.
  intros Hp Hq Ha Hc. unfold script_pass.
  rewrite !(pressed_clicked _ _ _ Hc). simpl.
  rewrite Hp, andb_false_r. unfold playing_block. rewrite Hq, Ha. simpl.
  destruct (if is_multi q then _ else _) as [[l r]|]; [|done].
  by rewrite (pressed_clicked _ _ _ Hc).
Qed.

Lemma grade_app_state q a c s : app_state (grade q a c s) = app_state s.
Proof. unfold grade. repeat (case_match; simpl; try done). Qed.

Lemma grade_answered q a c s : answered (grade q a c s) = answered s.
Proof. unfold grade. repeat (case_match; simpl; try done). Qed.

Lemma grade_is_correct q a c s :
  is_correct (grade q a c s) = bool_decide (a = c).
Proof. unfold grade. repeat (case_match; simpl; try done). Qed.

(** What an accepted submission leaves behind, after the rerun. *)
Lemma run_submit_accepted u s q :
  app_state s = Playing →
  selected_q s !! current_idx s = Some q →
  answered s = false →
  clicked u = Some BtnSubmit →
  answered (run u s).2 = true →
  ∃ l r a,
    (if is_multi q
     then (λ l, (l, None)) <$>
          collect_checked (checkbox u (round_id s) (current_idx s)) 0 (q_options q)
     else Some ([], radio u)) = Some (l, r) ∧
    user_answer q l r = Some a ∧
    (run u s).2 =
      append_record q a (sorted (q_answer q))
        (grade q a (sorted (q_answer q))
           (set_mistake_msg NoMsg
              (set_user_ans_display (Some a) (set_answered true s)))).
Proof.
  intros Hp Hq Ha Hc. unfold run.
  rewrite (script_pass_submit u s q) by done.
  destruct (if is_multi q then _ else _) as [[l r]|]; simpl; [|congruence].
  unfold submit_answer. destruct (user_answer q l r) as [a|] eqn:Hu; simpl; [|congruence].
  intros _. exists l, r, a. split_and!; [done..|].
  apply script_pass_quiet_playing; [done|].
  simpl. by rewrite grade_app_state.
Qed.

(** ** The mistake ledger policy *)

Lemma collect_checked_none cb i opts :
  (∀ j, (j < length opts)%nat → cb (i + j)%nat = false) →
  collect_checked cb i opts = Some [].
Proof.
  revert i. induction opts as [|opt rest IH]; intros i Hcb; [done|].
  simpl. rewrite <- (Nat.add_0_r i) at 1. rewrite Hcb by (simpl; lia).
  apply IH. intros j Hj. replace (S i + j)%nat with (i + S j)%nat by lia.
  apply Hcb. simpl. lia.
Qed.

(** C1: a wrong answer sets the ledger entry of the question's content to
    exactly 2, whatever the mode and whatever the ledger held for it, and
    the ledger file is rewritten with the new ledger at once. *)
Theorem wrong_answer_sets_entry_to_two u s q :
  app_state s = Playing →
  selected_q s !! current_idx s = Some q →
  answered s = false →
  clicked u = Some BtnSubmit →
  answered (run u s).2 = true →
  is_correct (run u s).2 = false →
  mistakes (run u s).2 = <[q_content q := 2]> (mistakes s) ∧
  mistakes (run u s).2 !! q_content q = Some 2 ∧
  mistakes_file (disk (run u s).2) = Content (Mapping (mistakes (run u s).2)).
Proof.
  intros Hp Hq Ha Hc Hacc.
  destruct (run_submit_accepted u s q) as (l & r & a & _ & _ & ->); [done..|].
  simpl. rewrite grade_is_correct. intros Hw. unfold grade. rewrite Hw. simpl.
  split_and!; [done| |done]. apply lookup_insert_eq.
Qed.

(** C2: a correct answer in mistake-review mode to a question whose
    content is a ledger key lowers the entry by 1; the key is removed
    when the result is no longer positive and keeps the lowered value
    otherwise.  So 2 becomes 1 and stays, and 1 is removed. *)
Theorem correct_review_answer_decrements u s q v :
  app_state s = Playing →
  selected_q s !! current_idx s = Some q →
  answered s = false →
  clicked u = Some BtnSubmit →
  answered (run u s).2 = true →
  is_correct (run u s).2 = true →
  play_mode s = ModeMistake →
  mistakes s !! q_content q = Some v →
  mistakes (run u s).2 =
    (if v - 1 <=? 0 then delete (q_content q) (mistakes s)
     else <[q_content q := v - 1]> (mistakes s)) ∧
  (v - 1 ≤ 0 → mistakes (run u s).2 !! q_content q = None) ∧
  (0 < v - 1 → mistakes (run u s).2 !! q_content q = Some (v - 1)) ∧
  (v = 2 → mistakes (run u s).2 !! q_content q = Some 1) ∧
  (v = 1 → mistakes (run u s).2 !! q_content q = None) ∧
  mistakes_file (disk (run u s).2) = Content (Mapping (mistakes (run u s).2)).
Proof.
  intros Hp Hq Ha Hc Hacc.
  destruct (run_submit_accepted u s q) as (l & r & a & _ & _ & ->); [done..|].
  simpl. rewrite grade_is_correct. intros Hr Hm Hv. unfold grade.
  rewrite Hr. simpl. rewrite Hm, Hv.
  destruct (v - 1 <=? 0) eqn:Hle; simpl.
  - apply Z.leb_le in Hle. rewrite delete_insert_eq.
    split_and!; [done| |lia|lia| |done]; intros; apply lookup_delete_eq.
  - apply Z.leb_gt in Hle.
    split_and!; [done|lia| | |lia|done]; intros; subst;
      by rewrite lookup_insert_eq.
Qed.

(** C7: a correct answer in random mode, or to a question whose content
    is not a ledger key, leaves the ledger as it was, in memory and in
    the file. *)
Theorem correct_answer_outside_review_keeps_ledger u s q :
  app_state s = Playing →
  selected_q s !! current_idx s = Some q →
  answered s = false →
  clicked u = Some BtnSubmit →
  answered (run u s).2 = true →
  is_correct (run u s).2 = true →
  play_mode s = ModeRandom ∨ mistakes s !! q_content q = None →
  mistakes (run u s).2 = mistakes s ∧ disk (run u s).2 = disk s.
Proof.
  intros Hp Hq Ha Hc Hacc.
  destruct (run_submit_accepted u s q) as (l & r & a & _ & _ & ->); [done..|].
  simpl. rewrite grade_is_correct. intros Hr Hcase. unfold grade.
  rewrite Hr. simpl.
  destruct Hcase as [-> | ->]; [done|].
  by destruct (play_mode s).
Qed.

(** C8: a submit with nothing selected stops the run on the spot: no
    field of the session, no list object and no file changes, so the
    question stays open and no trace is recorded. *)
Theorem empty_submission_changes_nothing u s q :
  app_state s = Playing →
  selected_q s !! current_idx s = Some q →
  answered s = false →
  clicked u = Some BtnSubmit →
  nothing_selected u s q →
  run u s = (Stopped, s).
Proof.
  intros Hp Hq Ha Hc Hnone. unfold run.
  rewrite (script_pass_submit u s q) by done.
  unfold nothing_selected in Hnone. unfold submit_answer, user_answer.
  destruct (is_multi q) eqn:Hm.
  - by rewrite collect_checked_none.
  - by rewrite Hnone.
Qed.

Lemma wrong_answer_sets_entry_to_two_witness :
  mistakes demo_half_way !! py "Q1" = Some 1 ∧
  mistakes (run (demo_inputs PageMistake (Some BtnSubmit) 1 [] (Some "B. beta"%string))
                demo_half_way).2 !! py "Q1" = Some 2.
Proof.
  split; [vm_compute; reflexivity|].
  refine (proj1 (proj2 (wrong_answer_sets_entry_to_two
            (demo_inputs PageMistake (Some BtnSubmit) 1 [] (Some "B. beta"%string))
            demo_half_way (demo_question "Q1" SingleChoice "A") _ _ _ _ _ _)));
    vm_compute; reflexivity.
Defined.

Lemma correct_review_answer_decrements_witness :
  mistakes (run (demo_inputs PageMistake (Some BtnSubmit) 2 [] (Some "A. alpha"%string))
                demo_review).2 !! py "Q1" = Some 1 ∧
  mistakes (run (demo_inputs PageMistake (Some BtnSubmit) 1 [] (Some "A. alpha"%string))
                demo_half_way).2 !! py "Q1" = None.
Proof.
  split.
  - refine (proj1 (proj2 (proj2 (proj2 (correct_review_answer_decrements
              (demo_inputs PageMistake (Some BtnSubmit) 2 [] (Some "A. alpha"%string))
              demo_review (demo_question "Q1" SingleChoice "A") 2 _ _ _ _ _ _ _ _)))) _);
      vm_compute; reflexivity.
  - refine (proj1 (proj2 (proj2 (proj2 (proj2 (correct_review_answer_decrements
              (demo_inputs PageMistake (Some BtnSubmit) 1 [] (Some "A. alpha"%string))
              demo_half_way (demo_question "Q1" SingleChoice "A") 1 _ _ _ _ _ _ _ _))))) _);
      vm_compute; reflexivity.
Defined.

Lemma correct_answer_outside_review_keeps_ledger_witness :
  mistakes (run (demo_inputs PageRandom (Some BtnSubmit) 5 [] (Some "A. alpha"%string))
                demo_started).2 = mistakes demo_started.
Proof.
  refine (proj1 (correct_answer_outside_review_keeps_ledger
            (demo_inputs PageRandom (Some BtnSubmit) 5 [] (Some "A. alpha"%string))
            demo_started (demo_question "Q1" SingleChoice "A") _ _ _ _ _ _ _));
    try (vm_compute; reflexivity).
  left. vm_compute; reflexivity.
Defined.

Lemma empty_submission_changes_nothing_witness :
  run (demo_inputs PageRandom (Some BtnSubmit) 5 [] None) demo_started
  = (Stopped, demo_started).
Proof.
  apply (empty_submission_changes_nothing _ _ (demo_question "Q1" SingleChoice "A"));
    vm_compute; reflexivity.
Defined.

(** ** Grading *)

(** [sorted] returns the sorted arrangement of its argument, which is all
    that is used of Python's [sorted]. *)
Lemma sorted_spec cs : Sorted N.le (sorted cs) ∧ sorted cs ≡ₚ cs.
Proof.
  split; [apply (Sorted_merge_sort N.le)|apply merge_sort_Permutation].
Qed.

Lemma sorted_Permutation l1 l2 : l1 ≡ₚ l2 → sorted l1 = sorted l2.
Proof.
  intros Hp. apply (Sorted_unique N.le); [apply sorted_spec..|].
  by rewrite !(proj2 (sorted_spec _)).
Qed.

Lemma sorted_singleton c : sorted [c] = [c].
Proof. reflexivity. Qed.

Lemma user_answer_labels q l r a :
  user_answer q l r = Some a → a = sorted (selected_labels q l r).
Proof.
  unfold user_answer, selected_labels. destruct (is_multi q).
  - destruct l; [done|]. by intros [= <-].
  - destruct r as [[|c o]|]; [done| |done]. by intros [= <-].
Qed.

Lemma user_answer_Permutation q l1 l2 r :
  l1 ≡ₚ l2 → user_answer q l1 r = user_answer q l2 r.
Proof.
  intros Hp. unfold user_answer. destruct (is_multi q); [|done].
  destruct l1 as [|c1 l1], l2 as [|c2 l2]; [done| | |].
  - by apply Permutation_nil_cons in Hp.
  - symmetry in Hp. by apply Permutation_nil_cons in Hp.
  - by rewrite (sorted_Permutation _ _ Hp).
Qed.

Lemma sorted_eq_Permutation l1 l2 : sorted l1 = sorted l2 ↔ l1 ≡ₚ l2.
Proof.
  split; [|apply sorted_Permutation].
  intros Heq. etrans; [symmetry; apply (proj2 (sorted_spec l1))|].
  rewrite Heq. apply sorted_spec.
Qed.

(** C3: the answer string is the selected labels in increasing order,
    the correct string is the characters of the stored answer in
    increasing order, and the verdict is the equality of the two strings:
    it is right exactly when the selection holds the same labels, each as
    many times, as the stored answer, so a label too many or a label
    missing makes it wrong, and it earns one point or none.  Two
    selections that are permutations of one another give the same answer
    string, the same verdict and indeed the same outcome of the submit
    handler. *)
Theorem grading_compares_sorted_labels q l1 l2 r s :
  l1 ≡ₚ l2 →
  sorted l1 = sorted l2 ∧
  user_answer q l1 r = user_answer q l2 r ∧
  submit_answer q l1 r s = submit_answer q l2 r s ∧
  (∀ a, user_answer q l1 r = Some a →
     let verdict :=
       bool_decide (sorted (selected_labels q l1 r) = sorted (q_answer q)) in
     a = sorted (selected_labels q l1 r) ∧
     is_correct (submit_answer q l1 r s).2 = verdict ∧
     is_correct (submit_answer q l2 r s).2 = verdict ∧
     score (submit_answer q l1 r s).2 = (score s + if verdict then 1 else 0)%nat ∧
     Sorted N.le a ∧
     a ≡ₚ selected_labels q l1 r ∧
     Sorted N.le (sorted (q_answer q)) ∧
     sorted (q_answer q) ≡ₚ q_answer q ∧
     (verdict = true ↔ selected_labels q l1 r ≡ₚ q_answer q) ∧
     (verdict = true ↔ a = sorted (q_answer q)) ∧
     (length (selected_labels q l1 r) ≠ length (q_answer q) → verdict = false) ∧
     (∀ c, (c ∈ selected_labels q l1 r ∧ (c ∉ q_answer q)) ∨
           ((c ∉ selected_labels q l1 r) ∧ c ∈ q_answer q) → verdict = false)).
Proof.
  intros Hp. split_and!.
  - by apply sorted_Permutation.
  - by apply user_answer_Permutation.
  - unfold submit_answer. by rewrite (user_answer_Permutation q l1 l2 r Hp).
  - intros a Ha verdict.
    assert (Hsame : submit_answer q l2 r s = submit_answer q l1 r s).
    { unfold submit_answer. by rewrite (user_answer_Permutation q l1 l2 r Hp). }
    rewrite Hsame. unfold submit_answer. rewrite Ha. simpl.
    pose proof (user_answer_labels q l1 r a Ha) as ->.
    rewrite grade_is_correct.
    assert (Hiff : verdict = true ↔ selected_labels q l1 r ≡ₚ q_answer q).
    { unfold verdict. rewrite bool_decide_eq_true. apply sorted_eq_Permutation. }
    split_and!; try done.
    + unfold grade. fold verdict. destruct verdict; simpl.
      * by repeat case_match.
      * lia.
    + apply sorted_spec.
    + apply sorted_spec.
    + apply sorted_spec.
    + apply sorted_spec.
    + unfold verdict. by rewrite bool_decide_eq_true.
    + intros Hlen. destruct verdict eqn:Hv; [|done].
      exfalso. apply Hlen, Permutation_length. by apply Hiff.
    + intros c Hc. destruct verdict eqn:Hv; [|done].
      exfalso. assert (Hperm : selected_labels q l1 r ≡ₚ q_answer q) by (by apply Hiff).
      destruct Hc as [[Hin Hout] | [Hout Hin]].
      * apply Hout. by rewrite <- Hperm.
      * apply Hout. by rewrite Hperm.
Qed.

Lemma grading_compares_sorted_labels_witness :
  submit_answer (demo_question "Q2" MultiChoice "BA") (py "BA") None demo_review
  = submit_answer (demo_question "Q2" MultiChoice "BA") (py "AB") None demo_review
  ∧ is_correct (submit_answer (demo_question "Q2" MultiChoice "BA") (py "BA") None
                  demo_review).2 = true
  ∧ is_correct (submit_answer (demo_question "Q5" MultiChoice "ACD") (py "BA") None
                  demo_review).2 = false.
Proof.
  assert (Hp : py "BA" ≡ₚ py "AB") by apply Permutation_swap.
  split_and!.
  - exact (proj1 (proj2 (proj2 (grading_compares_sorted_labels
             (demo_question "Q2" MultiChoice "BA") _ _ None demo_review Hp)))).
  - exact (proj1 (proj2 (proj2 (proj2 (proj2 (grading_compares_sorted_labels
             (demo_question "Q2" MultiChoice "BA") _ _ None demo_review Hp))) _ eq_refl))).
  - destruct (proj2 (proj2 (proj2 (grading_compares_sorted_labels
               (demo_question "Q5" MultiChoice "ACD") _ _ None demo_review Hp))) _ eq_refl)
      as (_ & -> & _ & _ & _ & _ & _ & _ & _ & _ & Hlen & _).
    apply Hlen. vm_compute. discriminate.
Defined.

(** ** Loading the ledger *)

Lemma migrate_lookup l (q : pystr) :
  migrate l !! q = if bool_decide (q ∈ l) then Some 2 else None.
Proof.
  unfold migrate.
  assert (Hgen : ∀ (d : gmap pystr Z),
    foldl (λ d q, <[q := 2]> d) d l !! q
    = if bool_decide (q ∈ l) then Some 2 else d !! q).
  { induction l as [|x l IH]; intros d; simpl; [done|].
    rewrite IH. destruct (decide (q ∈ l)) as [Hin|Hnin].
    - rewrite !bool_decide_eq_true_2; [done|by right|done].
    - rewrite (bool_decide_eq_false_2 (q ∈ l)) by done.
      destruct (decide (q = x)) as [->|Hne].
      + rewrite bool_decide_eq_true_2 by left. apply lookup_insert_eq.
      + rewrite bool_decide_eq_false_2 by (intros [?|?]%elem_of_cons; done).
        by apply lookup_insert_ne. }
  rewrite Hgen. by rewrite lookup_empty.
Qed.

(** C9: a ledger file in the legacy list shape is loaded as the mapping
    that sends every listed content to 2 and nothing else, and that
    mapping replaces the file during initialisation; a list of Q1 and Q2
    gives the mapping of Q1 to 2 and Q2 to 2. *)
Theorem legacy_ledger_is_migrated l hf :
  let s := boot {| mistakes_file := Content (LegacyList l); history_file := hf |} in
  (∀ q, mistakes s !! q = if bool_decide (q ∈ l) then Some 2 else None) ∧
  disk s = {| mistakes_file := Content (Mapping (mistakes s)); history_file := hf |} ∧
  app_state s = Idle ∧
  mistakes (boot {| mistakes_file := Content (LegacyList [py "Q1"; py "Q2"]);
                    history_file := hf |})
  = {[ py "Q1" := 2; py "Q2" := 2 ]}.
Proof.
  simpl. split_and!; [apply migrate_lookup|done|done|].
  apply map_eq. intros q. rewrite migrate_lookup.
  destruct (decide (q = py "Q1")) as [->|H1]; [done|].
  destruct (decide (q = py "Q2")) as [->|H2]; [done|].
  rewrite bool_decide_eq_false_2.
  - by rewrite lookup_insert_ne, lookup_singleton_ne.
  - intros [?|[?|?%elem_of_nil]%elem_of_cons]%elem_of_cons; done.
Qed.

(** ** Sampling *)

Section sampling.
Context {A : Type}.
Implicit Types pool : list A.

Lemma sample_step_Permutation pool j x y :
  pool !! j = Some x → last pool = Some y →
  x :: removelast (<[j := y]> pool) ≡ₚ pool.
Proof.
  intros Hj [front ->]%last_Some.
  destruct (decide (j < length front)%nat) as [Hlt|Hge].
  - rewrite lookup_app_l in Hj by done.
    rewrite insert_app_l by done.
    rewrite removelast_last.
    rewrite insert_take_drop by done.
    rewrite <- (take_drop_middle front j x Hj) at 3.
    rewrite <- !Permutation_middle, app_nil_r.
    apply Permutation_swap.
  - apply lookup_lt_Some in Hj as Hlen. rewrite length_app in Hlen. simpl in Hlen.
    assert (j = length front) as -> by lia.
    rewrite list_lookup_middle in Hj by done. injection Hj as <-.
    rewrite list_insert_id by (by rewrite list_lookup_middle).
    rewrite removelast_last. apply Permutation_cons_append.
Qed.

Lemma sample_loop_spec rng k : ∀ i pool,
  (k ≤ length pool)%nat →
  length (sample_loop rng i k pool) = k ∧
  ∃ rest, sample_loop rng i k pool ++ rest ≡ₚ pool.
Proof.
  induction k as [|k IH]; intros i pool Hk; simpl.
  { split; [done|]. by exists pool. }
  assert (Hpos : (0 < length pool)%nat) by lia.
  destruct (lookup_lt_is_Some_2 pool (rng i `mod` length pool)%nat) as [x Hx].
  { apply Nat.mod_upper_bound. lia. }
  destruct (last pool) as [y|] eqn:Hy.
  2: { apply last_None in Hy. subst. simpl in Hpos. lia. }
  rewrite Hx.
  pose proof (sample_step_Permutation pool _ x y Hx Hy) as Hperm.
  destruct (IH (S i) (removelast (<[(rng i `mod` length pool)%nat := y]> pool)))
    as [Hlen [rest Hrest]].
  { apply Permutation_length in Hperm. simpl in Hperm. lia. }
  split; [simpl; by rewrite Hlen|].
  exists rest. simpl. by rewrite Hrest.
Qed.

Lemma sample_loop_length rng i k pool :
  (k ≤ length pool)%nat → length (sample_loop rng i k pool) = k.
Proof. intros. by apply sample_loop_spec. Qed.
End sampling.

Lemma removelast_fmap {A B} (f : A → B) (l : list A) :
  removelast (f <$> l) = f <$> removelast l.
Proof.
  induction l as [|x [|y l] IH]; [done..|].
  change (f x :: removelast (f <$> y :: l) = f x :: (f <$> removelast (y :: l))).
  by rewrite IH.
Qed.

Lemma sample_loop_fmap {A B} (f : A → B) rng k : ∀ i (pool : list A),
  sample_loop rng i k (f <$> pool) = f <$> sample_loop rng i k pool.
Proof.
  induction k as [|k IH]; intros i pool; simpl; [done|].
  rewrite length_fmap, list_lookup_fmap, fmap_last.
  destruct (pool !! _) as [x|]; simpl; [|done].
  destruct (last pool) as [y|]; simpl; [|done].
  by rewrite <- list_fmap_insert, removelast_fmap, IH.
Qed.

(** The sample is made of [k] cells of the population at different
    positions. *)
Lemma sample_loop_drawn_from {A} rng i k (pool : list A) :
  (k ≤ length pool)%nat → drawn_from (sample_loop rng i k pool) pool.
Proof.
  intros Hk.
  set (cells := zip (seq 0 (length pool)) pool).
  assert (Hsnd : cells.*2 = pool) by (apply snd_zip; by rewrite length_seq).
  assert (Hfst : cells.*1 = seq 0 (length pool)) by (apply fst_zip; by rewrite length_seq).
  assert (Hlen : (k ≤ length cells)%nat).
  { by rewrite <- (length_fmap snd), Hsnd. }
  destruct (sample_loop_spec rng k i cells Hlen) as [_ [rest Hrest]].
  exists (sample_loop rng i k cells). split_and!.
  - by rewrite <- sample_loop_fmap, Hsnd.
  - assert (Hnd : NoDup (sample_loop rng i k cells ++ rest).*1).
    { rewrite Hrest, Hfst. apply NoDup_seq. }
    rewrite fmap_app in Hnd. by apply NoDup_app in Hnd as [? _].
  - intros j x Hin.
    assert (Hc : (j, x) ∈ cells).
    { rewrite <- Hrest. apply elem_of_app. by left. }
    apply list_elem_of_lookup in Hc as [m Hm].
    unfold cells in Hm. apply lookup_zip_with_Some in Hm as (a & b & Heq & Ha & Hb).
    injection Heq as <- <-.
    apply lookup_seq in Ha as [-> _]. done.
Qed.

Lemma drawn_from_elem_of {A} (sample pool : list A) x :
  drawn_from sample pool → x ∈ sample → x ∈ pool.
Proof.
  intros (picks & -> & _ & Hpos) Hx.
  apply list_elem_of_fmap in Hx as [[i y] [-> Hin]].
  apply list_elem_of_lookup. exists i. by apply Hpos.
Qed.

(** Different cells of a population without repetition are different. *)
Lemma drawn_from_NoDup {A} (sample pool : list A) :
  drawn_from sample pool → NoDup pool → NoDup sample.
Proof.
  intros (picks & -> & Hnd & Hpos) Hpool.
  induction picks as [|[i x] picks IH]; simpl; [constructor|].
  simpl in Hnd. apply NoDup_cons in Hnd as [Hi Hnd].
  apply NoDup_cons. split.
  - intros Hx. apply list_elem_of_fmap in Hx as [[j y] [Heq Hin]]. simpl in Heq. subst y.
    assert (i = j) as ->.
    { eapply NoDup_lookup; [exact Hpool| |]; apply Hpos; [by left|by right]. }
    apply Hi. apply list_elem_of_fmap. by exists (j, x).
  - apply IH; [done|]. intros j y Hin. apply Hpos. by right.
Qed.

(** ** Starting an attempt *)

Lemma start_quiz_spec u md pool num s :
  0 ≤ num ≤ Z.of_nat (length pool) →
  ∃ s1, start_quiz u md pool num s = (Rerun, s1) ∧
        starts_attempt md pool num s s1.
Proof.
  intros Hnum. unfold start_quiz, random_sample.
  rewrite bool_decide_eq_true_2 by done.
  eexists. split; [done|]. unfold starts_attempt. simpl.
  split_and!; try done.
  - apply sample_loop_length. lia.
  - apply sample_loop_drawn_from. lia.
  - apply list_lookup_middle. done.
Qed.

Lemma number_input_range lo hi d v :
  lo ≤ d ≤ hi → lo ≤ number_input lo hi d v ≤ hi.
Proof. intros. unfold number_input. by case_bool_decide. Qed.

Lemma number_input_typed lo hi d v :
  lo ≤ v ≤ hi → number_input lo hi d v = v.
Proof. intros. unfold number_input. by rewrite bool_decide_eq_true_2. Qed.





(** ** The passes as a step relation *)

Lemma grade_heap q a c s : heap (grade q a c s) = heap s.
Proof. unfold grade. repeat (case_match; simpl; try done). Qed.

Lemma grade_session_records q a c s :
  session_records (grade q a c s) = session_records s.
Proof. unfold grade. repeat (case_match; simpl; try done). Qed.

Lemma grade_current_idx q a c s : current_idx (grade q a c s) = current_idx s.
Proof. unfold grade. repeat (case_match; simpl; try done). Qed.

Lemma grade_selected_q q a c s : selected_q (grade q a c s) = selected_q s.
Proof. unfold grade. repeat (case_match; simpl; try done). Qed.

Lemma grade_history q a c s : history (grade q a c s) = history s.
Proof. unfold grade. repeat (case_match; simpl; try done). Qed.

Lemma grade_score q a c s :
  score (grade q a c s) = (score s + if bool_decide (a = c) then 1 else 0)%nat.
Proof.
  unfold grade. destruct (bool_decide (a = c)); simpl; [|lia].
  by repeat case_match.
Qed.

Lemma start_quiz_cases u md pool num s :
  start_quiz u md pool num s = (Raised ValueError, s) ∨
  ∃ s', start_quiz u md pool num s = (Rerun, s').
Proof. unfold start_quiz. destruct (random_sample _ _ _); eauto. Qed.

Lemma idle_block_step u s : app_state s = Idle → pass_step s (idle_block u s).2.
Proof.
  intros Hidle. unfold idle_block.
  destruct (all_questions u) as [|q0 bank]; [constructor|].
  destruct (page u); [constructor| |].
  - destruct (pressed u BtnStart); [|constructor].
    destruct (start_quiz_cases u ModeRandom (q0 :: bank)
                (number_input 1 (Z.of_nat (length (q0 :: bank)))
                   (Z.min 20 (Z.of_nat (length (q0 :: bank)))) (num_input u)) s)
      as [-> | [s' Hstart]]; [constructor|].
    rewrite Hstart. eapply step_start; [done| |exact Hstart].
    apply number_input_range. simpl. lia.
  - case_bool_decide; [constructor|].
    destruct (filter _ _) as [|p0 pool]; [by constructor|].
    destruct (pressed u BtnStartMistake); [|constructor].
    destruct (start_quiz_cases u ModeMistake (p0 :: pool)
                (number_input 1 (Z.of_nat (length (p0 :: pool)))
                   (Z.of_nat (length (p0 :: pool))) (num_input u)) s)
      as [-> | [s' Hstart]]; [constructor|].
    rewrite Hstart. eapply step_start; [done| |exact Hstart].
    apply number_input_range. simpl. lia.
Qed.

Lemma playing_block_step u s :
  app_state s = Playing → pass_step s (playing_block u s).2.
Proof.
  intros Hplay. unfold playing_block.
  destruct (selected_q s !! current_idx s) as [q|] eqn:Hq; [|constructor].
  apply lookup_lt_Some in Hq as Hlt.
  destruct (if is_multi q then _ else _) as [[l r]|]; [|constructor].
  destruct (answered s) eqn:Ha; simpl.
  - destruct (_ <? _) eqn:Hlast.
    + destruct (pressed u BtnNext); [|constructor].
      apply Z.ltb_lt in Hlast. apply step_next; [done..|lia].
    + destruct (pressed u BtnFinish); [|constructor].
      apply Z.ltb_ge in Hlast. apply step_finish; [done..|lia].
  - destruct (pressed u BtnSubmit); [|constructor].
    unfold submit_answer. destruct (user_answer q l r) as [a|]; [|constructor].
    by apply step_submit.
Qed.

Lemma finished_block_step u s :
  app_state s = Finished → pass_step s (finished_block u s).2.
Proof.
  intros Hfin. unfold finished_block.
  destruct (length (selected_q s)); [constructor|].
  destruct (pressed u BtnBack); by constructor.
Qed.

Lemma script_pass_step u s : pass_step s (script_pass u s).2.
Proof.
  unfold script_pass.
  destruct (pressed u BtnForceReset); [constructor|].
  destruct (pressed u BtnSync); [constructor|].
  destruct (is_home (page u) && negb (is_playing (app_state s))).
  { unfold home_block. destruct (all_questions u); constructor. }
  destruct (app_state s) eqn:Hst;
    auto using idle_block_step, playing_block_step, finished_block_step.
Qed.

(** ** Invariants of a session *)

Lemma attempt_ok_step s s' : pass_step s s' → attempt_ok s → attempt_ok s'.
Proof.
  intros Hstep Hok. unfold attempt_ok in *.
  destruct Hstep as [s|s|u md pool num s s' Hidle Hnum Hstart|s Hidle|q a s Hplay Hq Ha
                    |s Hplay Ha Hlt|s Hplay Ha Hlast|u s Hfin|u s Hfin]; simpl.
  - done.
  - done.
  - intros _. unfold start_quiz, random_sample in Hstart.
    case_bool_decide as Hk; [|done]. injection Hstart as <-. simpl.
    exists []. split_and!; [by apply list_lookup_middle|done..| |done].
    rewrite sample_loop_length; lia.
  - by rewrite Hidle.
  - rewrite grade_app_state. simpl. intros Hne.
    destruct (Hok Hne) as (recs & Hrecs & Hlen & Hscore & Hlt & _).
    rewrite grade_heap, grade_session_records, grade_current_idx, grade_selected_q,
      grade_answered, grade_score, grade_is_correct. simpl.
    rewrite Ha in Hlen.
    exists (recs ++ [ {| rec_idx := current_idx s + 1;
                         rec_content := q_content q;
                         rec_type := q_type q;
                         rec_options := q_options q;
                         rec_knowledge := q_knowledge q;
                         rec_source := q_source q;
                         rec_user_ans := a;
                         rec_correct_ans := sorted (q_answer q);
                         rec_is_correct := bool_decide (a = sorted (q_answer q));
                         rec_explanation := q_explanation q |} ]).
    split_and!.
    + by rewrite list_lookup_alter_eq, Hrecs.
    + rewrite length_app. simpl. lia.
    + rewrite filter_app, length_app, <- Hscore. f_equal.
      rewrite filter_cons, filter_nil. simpl.
      destruct (bool_decide (a = sorted (q_answer q))); by case_decide.
    + done.
    + by rewrite Hplay.
  - intros Hne. destruct (Hok Hne) as (recs & Hrecs & Hlen & Hscore & _ & _).
    rewrite Ha in Hlen.
    exists recs. split_and!; [done|lia|done|lia|by rewrite Hplay].
  - intros _. destruct Hok as (recs & Hrecs & Hlen & Hscore & Hidx & _); [by rewrite Hplay|].
    exists recs. split_and!; [done..|]. by intros _.
  - intros Hne. destruct (Hok Hne) as (recs & ?). by exists recs.
  - done.
Qed.

Lemma heap_ok_step s s' : pass_step s s' → heap_ok s → heap_ok s'.
Proof.
  intros Hstep (Hloc & Hhist & Hfresh). unfold heap_ok.
  destruct Hstep as [s|s|u md pool num s s' Hidle Hnum Hstart|s Hidle|q a s Hplay Hq Ha
                    |s Hplay Ha Hlt|s Hplay Ha Hlast|u s Hfin|u s Hfin]; simpl.
  - done.
  - done.
  - unfold start_quiz in Hstart. destruct (random_sample _ _ _); [|done].
    injection Hstart as <-. simpl. rewrite length_app. simpl.
    split_and!; [lia| |].
    + intros r Hr. apply Hhist in Hr. lia.
    + intros _ r Hr. apply Hhist in Hr. lia.
  - split_and!; [done..|]. by rewrite Hidle.
  - rewrite grade_heap, grade_session_records, grade_history, grade_app_state.
    simpl. rewrite length_alter. done.
  - done.
  - done.
  - split_and!; [done| |by rewrite Hfin].
    intros r [Hr| ->%list_elem_of_singleton]%elem_of_app; [by apply Hhist|done].
  - split_and!; [done| |done].
    intros r [Hr| ->%list_elem_of_singleton]%elem_of_app; [by apply Hhist|done].
Qed.

Lemma boot_ok d : attempt_ok (boot d) ∧ heap_ok (boot d).
Proof.
  split.
  - intros Hne. exfalso. apply Hne. unfold boot. by destruct (load_json _ _).
  - unfold heap_ok, boot.
    destruct (load_json (mistakes_file d) (Mapping ∅)) as [l|m]; simpl;
      rewrite length_app, length_fmap; simpl.
    all: split_and!; [lia| |done].
    all: intros r (i & x & -> & Hx)%elem_of_lookup_imap; simpl.
    all: apply lookup_lt_Some in Hx; lia.
Qed.

Lemma reachable_ok s : reachable s → attempt_ok s ∧ heap_ok s.
Proof.
  induction 1 as [d|u s _ [Hatt Hheap]]; [apply boot_ok|].
  assert (Hpass : ∀ u s, attempt_ok s ∧ heap_ok s →
                         attempt_ok (script_pass u s).2 ∧ heap_ok (script_pass u s).2).
  { intros u' s' [? ?].
    split; [eapply attempt_ok_step|eapply heap_ok_step]; eauto using script_pass_step. }
  unfold run. destruct (script_pass u s) as [o s1] eqn:Hp1.
  assert (Hs1 : attempt_ok s1 ∧ heap_ok s1).
  { replace s1 with (script_pass u s).2 by (by rewrite Hp1). by apply Hpass. }
  destruct o; simpl; try done. by apply Hpass.
Qed.

(** ** The history *)

Lemma resolve_app h h' r :
  (h_details r < length h)%nat → resolve (h ++ h') r = resolve h r.
Proof. intros Hlt. unfold resolve. by rewrite lookup_app_l. Qed.

Lemma resolve_alter f i h r :
  h_details r ≠ i → resolve (alter f i h) r = resolve h r.
Proof. intros Hne. unfold resolve. by rewrite list_lookup_alter_ne. Qed.

Lemma history_value_step s s' :
  pass_step s s' → heap_ok s →
  ∃ new, history_value s' = history_value s ++ new.
Proof.
  intros Hstep (Hloc & Hhist & Hfresh). unfold history_value.
  destruct Hstep as [s|s|u md pool num s s' Hidle Hnum Hstart|s Hidle|q a s Hplay Hq Ha
                    |s Hplay Ha Hlt|s Hplay Ha Hlast|u s Hfin|u s Hfin]; simpl.
  1, 2, 4, 6, 7: exists []; by rewrite app_nil_r.
  - unfold start_quiz in Hstart. destruct (random_sample _ _ _); [|done].
    injection Hstart as <-. simpl. exists []. rewrite app_nil_r.
    apply list_fmap_ext. intros i r Hr. apply resolve_app, Hhist.
    by eapply list_elem_of_lookup_2.
  - rewrite grade_heap, grade_session_records, grade_history. simpl.
    exists []. rewrite app_nil_r.
    apply list_fmap_ext. intros i r Hr. apply resolve_alter, Hfresh; [done|].
    by eapply list_elem_of_lookup_2.
  - eexists. by rewrite fmap_app.
  - eexists. by rewrite fmap_app.
Qed.

(** What the history holds is never lost or altered: every event leaves
    the entries recorded so far, with their traces, at the front of the
    history. *)
Lemma recorded_history_is_kept u s :
  reachable s → ∃ new, history_value (run u s).2 = history_value s ++ new.
Proof.
  intros [_ Hheap]%reachable_ok.
  destruct (history_value_step s (script_pass u s).2) as [new1 Hnew1];
    [apply script_pass_step|done|].
  unfold run. destruct (script_pass u s) as [o s1] eqn:Hp1. simpl in Hnew1.
  assert (Hheap1 : heap_ok s1).
  { replace s1 with (script_pass u s).2 by (by rewrite Hp1).
    eapply heap_ok_step; [apply script_pass_step|done]. }
  destruct o; simpl; eauto.
  destruct (history_value_step s1 (script_pass (after_rerun u) s1).2) as [new2 Hnew2];
    [apply script_pass_step|done|].
  exists (new1 ++ new2). by rewrite Hnew2, Hnew1, app_assoc.
Qed.

(** Without a click the idle pages leave the state alone, except that the
    review page empties a ledger none of whose keys is a loaded question. *)
Lemma idle_block_unclicked u s :
  clicked u = None →
  (idle_block u s).2 = s ∨
  (page u = PageMistake ∧ mistakes s ≠ ∅ ∧
   filter (λ q, is_Some (mistakes s !! q_content q)) (all_questions u) = [] ∧
   (idle_block u s).2 = save_mistakes (set_mistakes ∅ s)).
Proof.
  intros Hc. unfold idle_block. rewrite !pressed_unclicked by done.
  destruct (all_questions u) as [|q0 bank]; [by left|].
  destruct (page u); [by left| |].
  - by left.
  - case_bool_decide; [by left|].
    destruct (filter _ _) as [|p0 pool] eqn:Hpool.
    + by right.
    + by left.
Qed.

(** The finish button, on the last question once it is answered. *)
Lemma run_finish u s :
  app_state s = Playing →
  clicked u = Some BtnFinish →
  page u ≠ PageHome →
  app_state (run u s).2 = Finished →
  run u s = (Completed, archive (after_rerun u) (set_app_state Finished s)) ∧
  length (selected_q s) ≠ 0%nat.
Proof.
  intros Hplay Hc Hpage. unfold run.
  assert (Hpass : script_pass u s = playing_block u s).
  { unfold script_pass.
    by rewrite !(pressed_clicked _ _ _ Hc), Hplay, andb_false_r. }
  rewrite Hpass. unfold playing_block.
  destruct (selected_q s !! current_idx s) as [q|] eqn:Hq; simpl; [|congruence].
  destruct (if is_multi q then _ else _) as [[l r]|]; simpl; [|congruence].
  rewrite !(pressed_clicked _ _ _ Hc). simpl.
  destruct (answered s); simpl; [|congruence].
  destruct (_ <? _); simpl; [congruence|].
  intros _.
  assert (Hlen : length (selected_q s) ≠ 0%nat).
  { apply lookup_lt_Some in Hq. lia. }
  split; [|done].
  unfold script_pass. rewrite !after_rerun_unclicked. simpl.
  destruct (page u); [done| |]; simpl.
  all: unfold finished_block; rewrite after_rerun_unclicked; simpl.
  all: by destruct (length (selected_q s)).
Qed.

(** *** Rounding *)

Lemma round_half_even_spec num den :
  0 < den →
  2 * Z.abs (num - round_half_even num den * den) ≤ den ∧
  (2 * Z.abs (num - round_half_even num den * den) = den →
   Z.even (round_half_even num den) = true).
Proof.
  intros Hden. unfold round_half_even.
  pose proof (Z.div_mod num den) as Hdm.
  pose proof (Z.mod_pos_bound num den Hden) as Hr.
  set (q := num / den) in *. set (r := num mod den) in *.
  assert (Hnum : num = den * q + r) by lia. clearbody q r.
  assert (Hdown : num - q * den = r) by lia.
  assert (Hup : num - (q + 1) * den = - (den - r)) by lia.
  destruct (2 * r ?= den) eqn:Hcmp.
  - apply Z.compare_eq in Hcmp.
    destruct (Z.even q) eqn:Heven.
    + rewrite Hdown, Z.abs_eq by lia. split; [lia|done].
    + rewrite Hup, Z.abs_opp, Z.abs_eq by lia. split; [lia|].
      intros _. by rewrite Z.even_add, Heven.
  - rewrite Z.compare_lt_iff in Hcmp.
    rewrite Hdown, Z.abs_eq by lia. split; [lia|intros; lia].
  - rewrite Z.compare_gt_iff in Hcmp.
    rewrite Hup, Z.abs_opp, Z.abs_eq by lia. split; [lia|intros; lia].
Qed.

(** [round(x, 1)] is [x] rounded to one decimal. *)
Lemma py_round1_spec x : round_to_one_decimal x (py_round1 x).
Proof.
  unfold round_to_one_decimal, py_round1.
  destruct (Prim2SF x) as [sg| sg| |sg m e]; try done.
  destruct e as [|p|p].
  - exists (Z.pos m * 10 * 2 ^ 0). split; [simpl; lia|done].
  - exists (Z.pos m * 10 * 2 ^ Z.pos p). split; [simpl; lia|done].
  - exists (round_half_even (Z.pos m * 10) (2 ^ Z.pos p)). split; [|done].
    unfold nearest_tenth.
    replace (10 * Z.pos m) with (Z.pos m * 10) by lia.
    apply round_half_even_spec. by apply Z.pow_pos_nonneg.
Qed.

Lemma accuracy_checked_200 : accuracy_checked_upto 200 = true.
Proof. vm_compute. reflexivity. Qed.

Lemma accuracy_near_spec score total t :
  accuracy_near score total t = true →
  py_round1 (PrimFloat.mul (true_div (Z.of_nat score) (Z.of_nat total))
                           (float_of_int 100)) = tenths t ∧
  2 * Z.abs (1000 * Z.of_nat score - t * Z.of_nat total) ≤ Z.of_nat total.
Proof.
  intros H. apply andb_prop in H as [Heq Hnear].
  split; [exact (proj1 (Leibniz.eqb_spec _ _) Heq)|exact (proj1 (Z.leb_le _ _) Hnear)].
Qed.

Lemma accuracy_checked_total_spec score total :
  accuracy_checked_total total = true → (score ≤ total)%nat →
  accuracy_checked score total = true.
Proof.
  intros H Hscore.
  apply (proj1 (forallb_forall _ _) H score), in_seq. lia.
Qed.

Lemma accuracy_checked_upto_spec n total :
  accuracy_checked_upto n = true → (1 ≤ total ≤ n)%nat →
  accuracy_checked_total total = true.
Proof.
  intros H Htotal.
  apply (proj1 (forallb_forall _ _) H total), in_seq. lia.
Qed.

Lemma accuracy_checked_sound score total :
  (score ≤ total)%nat → (1 ≤ total ≤ 200)%nat →
  ∃ t, py_round1 (PrimFloat.mul (true_div (Z.of_nat score) (Z.of_nat total))
                                (float_of_int 100)) = tenths t ∧
       2 * Z.abs (1000 * Z.of_nat score - t * Z.of_nat total) ≤ Z.of_nat total.
Proof.
  intros Hscore Htotal.
  pose proof (accuracy_checked_total_spec score total
                (accuracy_checked_upto_spec 200 total accuracy_checked_200 Htotal)
                Hscore) as Hone.
  apply orb_prop in Hone as [Hone|Hone];
    eexists; exact (accuracy_near_spec _ _ _ Hone).
Qed.

Lemma tenths_in_range score total t :
  (score ≤ total)%nat → (1 ≤ total)%nat →
  2 * Z.abs (1000 * Z.of_nat score - t * Z.of_nat total) ≤ Z.of_nat total →
  0 ≤ t ≤ 1000.
Proof.
  intros Hscore Htotal Hnear.
  assert (Hs : 0 ≤ Z.of_nat score ≤ Z.of_nat total) by lia.
  assert (Ht : 1 ≤ Z.of_nat total) by lia.
  set (a := Z.of_nat score) in *. set (b := Z.of_nat total) in *. clearbody a b.
  destruct (Z.abs_spec (1000 * a - t * b)) as [[_ Habs] | [_ Habs]];
    rewrite Habs in Hnear; split; nia.
Qed.

(** The fields of the entry, as the finished block computes them. *)
Lemma finish_summary_fields u s :
  reachable s →
  app_state s = Playing →
  clicked u = Some BtnFinish →
  page u ≠ PageHome →
  app_state (run u s).2 = Finished →
  ∃ r recs,
    history (run u s).2 = history s ++ [r] ∧
    history_value (run u s).2 = history_value s ++ [with_details recs r] ∧
    history_file (disk (run u s).2) = Content (history_value (run u s).2) ∧
    h_details r = session_records s ∧
    heap (run u s).2 !! h_details r = Some recs ∧
    heap s !! session_records s = Some recs ∧
    (0 < length (selected_q s))%nat ∧
    h_count r = length (selected_q s) ∧
    h_score r = score s ∧
    h_accuracy r =
      py_round1 (PrimFloat.mul
                   (true_div (Z.of_nat (score s)) (Z.of_nat (length (selected_q s))))
                   (float_of_int 100)) ∧
    length recs = length (selected_q s) ∧
    score s = length (filter (λ t, rec_is_correct t = true) recs).
Proof.
  intros Hreach Hplay Hc Hpage Hfin.
  destruct (run_finish u s) as [Hrun Hlen]; [done..|].
  pose proof (reach_run u s Hreach) as Hreach'.
  apply reachable_ok in Hreach' as [Hatt _].
  destruct Hatt as (recs & Hrecs & Hn & Hscore & Hidx & Hlast); [by rewrite Hfin|].
  destruct (Hlast Hfin) as [Hans Htotal].
  rewrite Hrun in *. simpl in *. rewrite Hans in Hn.
  exists (summary_record (after_rerun u) (set_app_state Finished s)), recs.
  split_and!; try done.
  - unfold history_value. simpl. rewrite fmap_app. simpl.
    unfold resolve at 2. simpl. by rewrite Hrecs.
  - lia.
  - lia.
Qed.

(** C5: when the finish button ends an attempt, one entry is appended to
    the history and written to the file: its question count is the number
    of selected questions, its score is the running score, which counts
    the correct traces, and its details are the trace list of the
    attempt, one trace per question.  Its accuracy is
    [round(score / total * 100, 1)]: the float percentage rounded to one
    decimal, that is the float of the tenth nearest to it, ties to the
    even tenth; for attempts of up to 200 questions it is the float of
    [t / 10] with [t / 10] nearest to the exact percentage.  Five
    questions with three correct answers give score 3, accuracy 60.0 and
    five traces; one of three gives 33.3, two of three 66.7 and one of
    sixteen 6.2. *)
Theorem finish_archives_summary u s :
  reachable s →
  app_state s = Playing →
  clicked u = Some BtnFinish →
  page u ≠ PageHome →
  app_state (run u s).2 = Finished →
  ∃ r recs,
    history (run u s).2 = history s ++ [r] ∧
    history_value (run u s).2 = history_value s ++ [with_details recs r] ∧
    history_file (disk (run u s).2) = Content (history_value (run u s).2) ∧
    h_details r = session_records s ∧
    heap (run u s).2 !! h_details r = Some recs ∧
    heap s !! session_records s = Some recs ∧
    (0 < length (selected_q s))%nat ∧
    h_count r = length (selected_q s) ∧
    h_score r = score s ∧
    h_accuracy r =
      py_round1 (PrimFloat.mul
                   (true_div (Z.of_nat (score s)) (Z.of_nat (length (selected_q s))))
                   (float_of_int 100)) ∧
    length recs = length (selected_q s) ∧
    score s = length (filter (λ t, rec_is_correct t = true) recs) ∧
    (length (selected_q s) = 5%nat → score s = 3%nat →
       h_score r = 3%nat ∧ h_accuracy r = 60%float ∧ length recs = 5%nat) ∧
    round_to_one_decimal
      (PrimFloat.mul (true_div (Z.of_nat (score s)) (Z.of_nat (length (selected_q s))))
                     (float_of_int 100))
      (h_accuracy r) ∧
    ((length (selected_q s) ≤ 200)%nat →
     ∃ t, h_accuracy r = tenths t ∧
          0 ≤ t ≤ 1000 ∧
          2 * Z.abs (1000 * Z.of_nat (score s) - t * Z.of_nat (length (selected_q s)))
          ≤ Z.of_nat (length (selected_q s))) ∧
    (length (selected_q s) = 3%nat → score s = 1%nat → h_accuracy r = tenths 333) ∧
    (length (selected_q s) = 3%nat → score s = 2%nat → h_accuracy r = tenths 667) ∧
    (length (selected_q s) = 16%nat → score s = 1%nat → h_accuracy r = tenths 62).
Proof.
  intros Hreach Hplay Hc Hpage Hfin.
  destruct (finish_summary_fields u s Hreach Hplay Hc Hpage Hfin)
    as (r & recs & H1 & H2 & H3 & H4 & H5 & H6 & H7 & H8 & H9 & Hacc & Hlen & Hscore).
  assert (Hle : (score s ≤ length (selected_q s))%nat).
  { rewrite Hscore, <- Hlen. apply length_filter. }
  exists r, recs.
  refine (conj H1 (conj H2 (conj H3 (conj H4 (conj H5 (conj H6 (conj H7 (conj H8
            (conj H9 (conj Hacc (conj Hlen (conj Hscore
            (conj _ (conj _ (conj _ (conj _ (conj _ _))))))))))))))))).
  - intros Hn5 Hs3. split; [by rewrite H9|]. split; [|by rewrite Hlen].
    rewrite Hacc, Hn5, Hs3. vm_compute. reflexivity.
  - rewrite Hacc. apply py_round1_spec.
  - intros Hn.
    destruct (accuracy_checked_sound (score s) (length (selected_q s)))
      as (t & Ht & Hnear); [done|lia|].
    exists t. split; [by rewrite Hacc|]. split; [|done].
    by apply (tenths_in_range (score s) (length (selected_q s))); [|lia|].
  - intros Hn Hs. rewrite Hacc, Hn, Hs. vm_compute. reflexivity.
  - intros Hn Hs. rewrite Hacc, Hn, Hs. vm_compute. reflexivity.
  - intros Hn Hs. rewrite Hacc, Hn, Hs. vm_compute. reflexivity.
Qed.

Lemma reachable_play events s : reachable s → reachable (play events s).
Proof.
  revert s. induction events as [|u events IH]; intros s Hs; [done|].
  apply IH. by constructor.
Qed.

Lemma finish_archives_summary_witness :
  ∃ r, history (run (demo_inputs PageRandom (Some BtnFinish) 5 [] None)
                    demo_last_answered).2 = [r] ∧
       h_count r = 5%nat ∧ h_score r = 3%nat ∧ h_accuracy r = 60%float.
Proof.
  destruct (finish_archives_summary
              (demo_inputs PageRandom (Some BtnFinish) 5 [] None) demo_last_answered)
    as (r & recs & Hhist & _ & _ & _ & _ & _ & _ & Hcount & Hscore & _ & _ & _ & H53 & _).
  - apply reachable_play, reach_run, reach_boot.
  - vm_compute; reflexivity.
  - reflexivity.
  - discriminate.
  - vm_compute; reflexivity.
  - exists r. destruct H53 as (H3 & H60 & _); [vm_compute; reflexivity..|].
    split_and!; [exact Hhist|by rewrite Hcount|exact H3|exact H60].
Defined.

(** C4: the finished page archives the attempt every time the script
    runs in the finished state.  Ending an attempt appends one entry, and
    going back to the home page with the button of the finished page
    appends a second entry for the same attempt, with the same trace
    list, question count and score. *)
Theorem acknowledged_finish_is_archived_twice u1 u2 s :
  app_state s = Playing →
  clicked u1 = Some BtnFinish →
  page u1 ≠ PageHome →
  app_state (run u1 s).2 = Finished →
  clicked u2 = Some BtnBack →
  page u2 ≠ PageHome →
  ∃ r1 r2,
    history (run u1 s).2 = history s ++ [r1] ∧
    history (run u2 (run u1 s).2).2 = history s ++ [r1; r2] ∧
    app_state (run u2 (run u1 s).2).2 = Idle ∧
    h_details r1 = session_records s ∧ h_details r2 = session_records s ∧
    h_count r2 = h_count r1 ∧ h_score r2 = h_score r1 ∧
    h_accuracy r2 = h_accuracy r1 ∧ h_mode r2 = h_mode r1 ∧
    h_date r1 = now u1 ∧ h_date r2 = now u2 ∧
    history_file (disk (run u2 (run u1 s).2).2)
    = Content (history_value s ++ [resolve (heap s) r1; resolve (heap s) r2]).
Proof.
  intros Hplay Hc1 Hpage1 Hfin Hc2 Hpage2.
  destruct (run_finish u1 s) as [Hrun Hlen]; [done..|].
  rewrite Hrun. simpl.
  set (s1 := archive (after_rerun u1) (set_app_state Finished s)).
  assert (Hpass : script_pass u2 s1 = (Rerun, set_app_state Idle (archive u2 s1))).
  { unfold script_pass. rewrite !(pressed_clicked _ _ _ Hc2). simpl.
    destruct (page u2); [done| |]; simpl.
    all: unfold finished_block; rewrite (pressed_clicked _ _ _ Hc2); simpl.
    all: by destruct (length (selected_q s)). }
  rewrite (run_rerun _ _ _ Hpass).
  assert (Hidle : script_pass (after_rerun u2) (set_app_state Idle (archive u2 s1))
                  = idle_block (after_rerun u2) (set_app_state Idle (archive u2 s1))).
  { unfold script_pass. rewrite !after_rerun_unclicked. simpl.
    by destruct (page u2). }
  rewrite Hidle.
  exists (summary_record (after_rerun u1) (set_app_state Finished s)),
         (summary_record u2 s1).
  destruct (idle_block_unclicked (after_rerun u2)
              (set_app_state Idle (archive u2 s1))) as [-> | (_ & _ & _ & ->)];
    [done|..]; simpl.
  all: unfold history_value; rewrite <- !app_assoc, !fmap_app; simpl.
  all: by split_and!.
Qed.

Lemma acknowledged_finish_is_archived_twice_witness :
  length (history demo_last_answered) = 0%nat ∧
  length (history
    (run (demo_inputs PageRandom (Some BtnBack) 5 [] None)
         (run (demo_inputs PageRandom (Some BtnFinish) 5 [] None)
              demo_last_answered).2).2) = 2%nat.
Proof.
  split; [vm_compute; reflexivity|].
  destruct (acknowledged_finish_is_archived_twice
              (demo_inputs PageRandom (Some BtnFinish) 5 [] None)
              (demo_inputs PageRandom (Some BtnBack) 5 [] None)
              demo_last_answered)
    as (r1 & r2 & _ & Hhist & _).
  - vm_compute; reflexivity.
  - reflexivity.
  - discriminate.
  - vm_compute; reflexivity.
  - reflexivity.
  - discriminate.
  - rewrite Hhist. reflexivity.
Defined.

(** ** Abandoning an attempt *)

(** C10: the reset button only puts the session back in the idle state.
    Its handler changes neither the ledger nor any file, and after the
    idle page has been drawn the ledger entry of every loaded question is
    what the answers of the abandoned attempt left, key by key, with the
    ledger file following the ledger; the only entries that can go are
    those of a ledger none of whose keys is a loaded question. *)
Theorem force_reset_keeps_ledger u s :
  clicked u = Some BtnForceReset →
  script_pass u s = (Rerun, set_app_state Idle s) ∧
  app_state (run u s).2 = Idle ∧
  history (run u s).2 = history s ∧
  heap (run u s).2 = heap s ∧
  history_file (disk (run u s).2) = history_file (disk s) ∧
  (∀ q, q ∈ all_questions u →
        mistakes (run u s).2 !! q_content q = mistakes s !! q_content q) ∧
  (mistakes_file (disk s) = Content (Mapping (mistakes s)) →
   mistakes_file (disk (run u s).2) = Content (Mapping (mistakes (run u s).2))) ∧
  (mistakes (run u s).2 = mistakes s ∧ disk (run u s).2 = disk s ∨
   page u = PageMistake ∧ mistakes s ≠ ∅ ∧
   (∀ q, q ∈ all_questions u → mistakes s !! q_content q = None) ∧
   mistakes (run u s).2 = ∅).
Proof.
  intros Hc.
  assert (Hpass : script_pass u s = (Rerun, set_app_state Idle s)).
  { unfold script_pass. by rewrite (pressed_clicked _ _ _ Hc). }
  split; [done|]. rewrite (run_rerun _ _ _ Hpass).
  assert (Hbank : all_questions (after_rerun u) = all_questions u).
  { simpl. by rewrite (pressed_clicked _ _ _ Hc). }
  assert (Hcases :
    (script_pass (after_rerun u) (set_app_state Idle s)).2 = set_app_state Idle s ∨
    (page u = PageMistake ∧ mistakes s ≠ ∅ ∧
     filter (λ q, is_Some (mistakes s !! q_content q)) (all_questions u) = [] ∧
     (script_pass (after_rerun u) (set_app_state Idle s)).2
     = save_mistakes (set_mistakes ∅ (set_app_state Idle s)))).
  { unfold script_pass. rewrite !after_rerun_unclicked. simpl.
    destruct (page u) eqn:Hpage; simpl.
    - left. unfold home_block. by destruct (all_questions _).
    - destruct (idle_block_unclicked (after_rerun u) (set_app_state Idle s))
        as [? | (Hp & _)]; [done|by left|]. simpl in Hp. congruence.
    - destruct (idle_block_unclicked (after_rerun u) (set_app_state Idle s))
        as [? | (_ & Hne & Hpool & ?)]; [done|by left|].
      right. rewrite Hbank in Hpool. done. }
  destruct Hcases as [-> | (Hpage & Hne & Hpool & ->)]; simpl.
  - split_and!; try done. by left.
  - assert (Hstale : ∀ q, q ∈ all_questions u → mistakes s !! q_content q = None).
    { intros q Hq. destruct (mistakes s !! q_content q) as [v|] eqn:Hv; [|done].
      assert (Hin : q ∈ filter (λ q, is_Some (mistakes s !! q_content q))
                               (all_questions u)).
      { apply list_elem_of_filter. split; [by rewrite Hv|done]. }
      rewrite Hpool in Hin. by apply elem_of_nil in Hin. }
    split_and!; try done.
    + intros q Hq. by rewrite (Hstale q Hq), lookup_empty.
    + by right.
Qed.

Lemma force_reset_keeps_ledger_witness :
  mistakes (run (demo_inputs PageMistake (Some BtnForceReset) 1 [] None)
             (run (demo_inputs PageMistake (Some BtnSubmit) 1 [] (Some "B. beta"%string))
                  demo_half_way).2).2 !! py "Q1" = Some 2.
Proof.
  etrans.
  - refine (proj1 (proj2 (proj2 (proj2 (proj2 (proj2 (force_reset_keeps_ledger
              (demo_inputs PageMistake (Some BtnForceReset) 1 [] None)
              (run (demo_inputs PageMistake (Some BtnSubmit) 1 []
                      (Some "B. beta"%string)) demo_half_way).2 eq_refl))))))
              (demo_question "Q1" SingleChoice "A") _).
    left.
  - vm_compute; reflexivity.
Defined.

(** * Further properties of the script *)

(** ** Files and session agree *)

Lemma history_value_alloc (h h' : list (list answer_trace)) (hist : list (session_record nat)) :
  (∀ r, r ∈ hist → (h_details r < length h)%nat) →
  resolve (h ++ h') <$> hist = resolve h <$> hist.
Proof.
  intros Hin. apply list_fmap_ext. intros i r Hr.
  apply resolve_app, Hin. by eapply list_elem_of_lookup_2.
Qed.

Lemma history_value_alter f i (h : list (list answer_trace))
    (hist : list (session_record nat)) :
  (∀ r, r ∈ hist → h_details r ≠ i) →
  resolve (alter f i h) <$> hist = resolve h <$> hist.
Proof.
  intros Hin. apply list_fmap_ext. intros j r Hr.
  apply resolve_alter, Hin. by eapply list_elem_of_lookup_2.
Qed.

Lemma with_details_id {D} (r : session_record D) : with_details (h_details r) r = r.
Proof. by destruct r. Qed.

Lemma history_value_boot d :
  history_value (boot d) = load_json (history_file (disk (boot d))) [].
Proof.
  assert (Hgen : ∀ loaded : list (session_record (list answer_trace)),
    resolve ((h_details <$> loaded) ++ [[]]) <$> imap (λ i r, with_details i r) loaded
    = loaded).
  { intros loaded. apply list_eq. intros i.
    rewrite list_lookup_fmap, list_lookup_imap.
    destruct (loaded !! i) as [r|] eqn:Hr; simpl; [|done].
    unfold resolve. simpl.
    rewrite lookup_app_l by (rewrite length_fmap; by eapply lookup_lt_Some).
    rewrite list_lookup_fmap, Hr. simpl. by destruct r. }
  unfold history_value, boot.
  destruct (load_json (mistakes_file d) (Mapping ∅)); simpl; apply Hgen.
Qed.

Lemma boot_disk_ok d : disk_ok (boot d).
Proof.
  split; [|symmetry; apply history_value_boot].
  unfold boot. destruct (mistakes_file d) as [| |[l|m]] eqn:Hf; simpl; rewrite ?Hf; done.
Qed.

Lemma grade_disk_ok q a c s :
  load_json (mistakes_file (disk s)) (Mapping ∅) = Mapping (mistakes s) →
  load_json (mistakes_file (disk (grade q a c s))) (Mapping ∅)
  = Mapping (mistakes (grade q a c s)) ∧
  history_file (disk (grade q a c s)) = history_file (disk s).
Proof.
  intros Hok. unfold grade.
  repeat (case_match; simpl; try done).
Qed.

Lemma disk_ok_step s s' : pass_step s s' → heap_ok s → disk_ok s → disk_ok s'.
Proof.
  intros Hstep (Hloc & Hhist & Hfresh) [Hm Hh]. unfold disk_ok, history_value in *.
  destruct Hstep as [s|s|u md pool num s s' Hidle Hnum Hstart|s Hidle|q a s Hplay Hq Ha
                    |s Hplay Ha Hlt|s Hplay Ha Hlast|u s Hfin|u s Hfin]; simpl.
  - done.
  - done.
  - unfold start_quiz in Hstart. destruct (random_sample _ _ _); [|done].
    injection Hstart as <-. simpl. by rewrite history_value_alloc.
  - done.
  - rewrite grade_heap, grade_session_records, grade_history. simpl.
    destruct (grade_disk_ok q a (sorted (q_answer q))
                (set_mistake_msg NoMsg
                   (set_user_ans_display (Some a) (set_answered true s))))
      as [Hm' Hh']; [done|].
    split; [done|]. rewrite Hh'. simpl.
    rewrite history_value_alter; [done|]. by apply Hfresh.
  - done.
  - done.
  - done.
  - done.
Qed.

Lemma reachable_disk_ok s : reachable s → disk_ok s.
Proof.
  induction 1 as [d|u s Hreach IH]; [apply boot_disk_ok|].
  apply reachable_ok in Hreach as [_ Hheap].
  unfold run. destruct (script_pass u s) as [o s1] eqn:Hp1.
  assert (Hs1 : heap_ok s1 ∧ disk_ok s1).
  { replace s1 with (script_pass u s).2 by (by rewrite Hp1).
    split; [eapply heap_ok_step|eapply disk_ok_step]; eauto using script_pass_step. }
  destruct Hs1 as [Hheap1 Hdisk1].
  destruct o; simpl; try done.
  eapply disk_ok_step; eauto using script_pass_step.
Qed.

(** X1: at every moment of a session the two files are up to date:
    reading [mistakes.json] back (an absent or unreadable file counting
    as the empty mapping) gives the ledger of the session, and reading
    [history.json] back gives its history, traces included. *)
Theorem files_follow_session s :
  reachable s →
  load_json (mistakes_file (disk s)) (Mapping ∅) = Mapping (mistakes s) ∧
  load_json (history_file (disk s)) [] = history_value s.
Proof. intros Hreach. by apply reachable_disk_ok. Qed.

(** X2: a new session started from the files of a running one finds the
    same ledger and the same history, and its initialisation writes
    nothing. *)
Theorem restart_restores_session s :
  reachable s →
  mistakes (boot (disk s)) = mistakes s ∧
  history_value (boot (disk s)) = history_value s ∧
  disk (boot (disk s)) = disk s ∧
  app_state (boot (disk s)) = Idle.
Proof.
  intros [Hm Hh]%reachable_disk_ok.
  assert (Hboot : mistakes (boot (disk s)) = mistakes s ∧ disk (boot (disk s)) = disk s).
  { unfold boot. rewrite Hm. by destruct (disk s). }
  destruct Hboot as [Hm' Hd']. split_and!; [done| |done|].
  - by rewrite history_value_boot, Hd'.
  - unfold boot. by destruct (load_json _ _).
Qed.

Lemma files_follow_session_witness :
  load_json (mistakes_file (disk demo_last_answered)) (Mapping ∅)
  = Mapping (mistakes demo_last_answered).
Proof.
  refine (proj1 (files_follow_session demo_last_answered _)).
  apply reachable_play, reach_run, reach_boot.
Defined.

Lemma restart_restores_session_witness :
  mistakes (boot (disk demo_last_answered)) = mistakes demo_last_answered.
Proof.
  refine (proj1 (restart_restores_session demo_last_answered _)).
  apply reachable_play, reach_run, reach_boot.
Defined.

(** ** The range of the ledger *)

Lemma grade_ledger_ok q a c s : ledger_ok s → ledger_ok (grade q a c s).
Proof.
  intros Hok k v. unfold grade.
  destruct (bool_decide (a = c)); simpl.
  - destruct (play_mode s) eqn:Hmode; simpl; try apply Hok.
    destruct (mistakes s !! q_content q) as [w|] eqn:Hw; simpl; [|apply Hok].
    apply Hok in Hw.
    destruct (w - 1 <=? 0) eqn:Hle; simpl.
    + rewrite delete_insert_eq. intros [_ Hk]%lookup_delete_Some. by apply Hok in Hk.
    + apply Z.leb_gt in Hle.
      intros [[_ <-] | [_ Hk]]%lookup_insert_Some; [lia|by apply Hok in Hk].
  - intros [[_ <-] | [_ Hk]]%lookup_insert_Some; [lia|by apply Hok in Hk].
Qed.

Lemma ledger_ok_step s s' : pass_step s s' → ledger_ok s → ledger_ok s'.
Proof.
  intros Hstep Hok.
  destruct Hstep as [s|s|u md pool num s s' Hidle Hnum Hstart|s Hidle|q a s Hplay Hq Ha
                    |s Hplay Ha Hlt|s Hplay Ha Hlast|u s Hfin|u s Hfin]; try done.
  - unfold start_quiz in Hstart. destruct (random_sample _ _ _); [|done].
    by injection Hstart as <-.
  - intros k v Hk. unfold answered_state, append_record in Hk. simpl in Hk.
    by eapply (grade_ledger_ok q a (sorted (q_answer q))
                 (set_mistake_msg NoMsg
                    (set_user_ans_display (Some a) (set_answered true s)))).
Qed.

Lemma boot_ledger_ok d :
  (∀ m, mistakes_file d = Content (Mapping m) → ∀ k v, m !! k = Some v → 1 ≤ v ≤ 2) →
  ledger_ok (boot d).
Proof.
  intros Hfile k v.
  assert (Hm : mistakes (boot d) =
               match mistakes_file d with
               | Content (LegacyList l) => migrate l
               | Content (Mapping m) => m
               | _ => ∅
               end).
  { unfold boot. by destruct (mistakes_file d) as [| |[l|m]]. }
  rewrite Hm. destruct (mistakes_file d) as [| |[l|m]] eqn:Hf.
  - by rewrite lookup_empty.
  - by rewrite lookup_empty.
  - rewrite migrate_lookup. case_bool_decide; [|done]. intros [= <-]. lia.
  - by apply Hfile.
Qed.

(** X3: no event takes a ledger entry out of the range 1..2: if every
    entry of the ledger is 1 or 2 before an event, every entry is 1 or 2
    after it (an entry that would reach 0 is removed instead). *)
Theorem ledger_entries_stay_in_range u s :
  ledger_ok s → ledger_ok (run u s).2.
Proof.
  intros Hok. unfold run. destruct (script_pass u s) as [o s1] eqn:Hp1.
  assert (Hs1 : ledger_ok s1).
  { replace s1 with (script_pass u s).2 by (by rewrite Hp1).
    eapply ledger_ok_step; eauto using script_pass_step. }
  destruct o; simpl; try done.
  eapply ledger_ok_step; eauto using script_pass_step.
Qed.

Lemma ledger_entries_stay_in_range_witness :
  ledger_ok (run (demo_inputs PageMistake (Some BtnSubmit) 1 [] (Some "A. alpha"%string))
                 demo_half_way).2.
Proof.
  apply ledger_entries_stay_in_range.
  apply ledger_entries_stay_in_range.
  apply boot_ledger_ok. intros m [= <-] k v.
  intros [_ <-]%lookup_singleton_Some. lia.
Defined.

(** ** Bounds of the attempt in progress *)

(** X4: while an attempt is being played or has just finished, the
    position is a valid index of the selected questions (so the question
    to show exists and the attempt has at least one question), and the
    score is at most the number of questions answered so far, hence at
    most the number of questions. *)
Theorem attempt_stays_within_bounds s :
  reachable s →
  app_state s ≠ Idle →
  is_Some (selected_q s !! current_idx s) ∧
  length (selected_q s) ≠ 0%nat ∧
  (score s ≤ current_idx s + (if answered s then 1 else 0))%nat ∧
  (current_idx s + (if answered s then 1 else 0) ≤ length (selected_q s))%nat ∧
  (score s ≤ length (selected_q s))%nat.
Proof.
  intros [Hatt _]%reachable_ok Hne.
  destruct (Hatt Hne) as (recs & _ & Hlen & Hscore & Hidx & _).
  assert (Hle : (score s ≤ length recs)%nat).
  { rewrite Hscore. apply length_filter. }
  split_and!.
  - by apply lookup_lt_is_Some_2.
  - lia.
  - lia.
  - destruct (answered s); lia.
  - destruct (answered s); lia.
Qed.

Lemma attempt_stays_within_bounds_witness :
  (score demo_last_answered ≤ length (selected_q demo_last_answered))%nat.
Proof.
  refine (proj2 (proj2 (proj2 (proj2
            (attempt_stays_within_bounds demo_last_answered _ _))))).
  - apply reachable_play, reach_run, reach_boot.
  - vm_compute. discriminate.
Defined.

(** ** The trace list follows the questions *)

Lemma traces_ok_step s s' :
  pass_step s s' → attempt_ok s → traces_ok s → traces_ok s'.
Proof.
  intros Hstep Hatt Hok. unfold traces_ok in *.
  destruct Hstep as [s|s|u md pool num s s' Hidle Hnum Hstart|s Hidle|q a s Hplay Hq Ha
                    |s Hplay Ha Hlt|s Hplay Ha Hlast|u s Hfin|u s Hfin]; simpl.
  - done.
  - done.
  - intros _. unfold start_quiz in Hstart. destruct (random_sample _ _ _); [|done].
    injection Hstart as <-. simpl.
    exists []. split; [by apply list_lookup_middle|]. by intros i t.
  - by rewrite Hidle.
  - rewrite grade_app_state. simpl. intros Hne.
    destruct (Hok Hne) as (recs & Hrecs & Htr).
    destruct (Hatt Hne) as (recs' & Hrecs' & Hlen & _).
    rewrite Hrecs in Hrecs'. injection Hrecs' as <-. rewrite Ha in Hlen.
    rewrite grade_heap, grade_session_records, grade_selected_q,
      grade_current_idx, grade_is_correct. simpl.
    eexists. split; [by rewrite list_lookup_alter_eq, Hrecs|].
    intros i t Hi. apply lookup_app_Some in Hi as [Hi | [Hge Hi]]; [by apply Htr|].
    apply list_lookup_singleton_Some in Hi as [Hz <-].
    assert (i = current_idx s) as -> by lia.
    exists q. split; [done|]. by repeat split.
  - intros Hne. destruct (Hok Hne) as (recs & ? & ?). by exists recs.
  - intros _. destruct Hok as (recs & ? & ?); [by rewrite Hplay|]. by exists recs.
  - intros Hne. destruct (Hok Hne) as (recs & ? & ?). by exists recs.
  - done.
Qed.

Lemma reachable_traces_ok s : reachable s → traces_ok s.
Proof.
  induction 1 as [d|u s Hreach IH].
  { intros Hne. exfalso. apply Hne. unfold boot. by destruct (load_json _ _). }
  apply reachable_ok in Hreach as [Hatt _].
  unfold run. destruct (script_pass u s) as [o s1] eqn:Hp1.
  assert (Hs1 : attempt_ok s1 ∧ traces_ok s1).
  { replace s1 with (script_pass u s).2 by (by rewrite Hp1).
    split; [eapply attempt_ok_step|eapply traces_ok_step]; eauto using script_pass_step. }
  destruct Hs1 as [Hatt1 Htr1].
  destruct o; simpl; try done.
  eapply traces_ok_step; eauto using script_pass_step.
Qed.

(** X5: the trace list of an attempt follows its questions: it has one
    trace per answered question, and the trace at position [i] is
    numbered [i + 1], copies content, type, options, knowledge, source
    and explanation of the question selected at position [i], records the
    sorted stored answer as the correct answer, and its verdict is the
    equality of the recorded user answer and the recorded correct
    answer. *)
Theorem traces_follow_questions s :
  reachable s →
  app_state s ≠ Idle →
  ∃ recs,
    heap s !! session_records s = Some recs ∧
    length recs = (current_idx s + if answered s then 1 else 0)%nat ∧
    ∀ i t, recs !! i = Some t →
           ∃ q, selected_q s !! i = Some q ∧ trace_of i q t.
Proof.
  intros Hreach Hne.
  pose proof (reachable_traces_ok s Hreach Hne) as (recs & Hrecs & Htr).
  apply reachable_ok in Hreach as [Hatt _].
  destruct (Hatt Hne) as (recs' & Hrecs' & Hlen & _).
  rewrite Hrecs in Hrecs'. injection Hrecs' as <-.
  by exists recs.
Qed.

Lemma traces_follow_questions_witness :
  ∃ recs, heap demo_last_answered !! session_records demo_last_answered = Some recs ∧
          length recs = 5%nat.
Proof.
  destruct (traces_follow_questions demo_last_answered) as (recs & Hrecs & Hlen & _).
  - apply reachable_play, reach_run, reach_boot.
  - vm_compute. discriminate.
  - exists recs. split; [exact Hrecs|]. rewrite Hlen. vm_compute. reflexivity.
Defined.

(** ** Buttons of the playing page *)

Lemma script_pass_playing u s b :
  app_state s = Playing →
  clicked u = Some b → b ≠ BtnForceReset → b ≠ BtnSync →
  script_pass u s = playing_block u s.
Proof.
  intros Hplay Hc Hr Hs. unfold script_pass.
  rewrite !(pressed_clicked _ _ _ Hc), Hplay, andb_false_r.
  by rewrite !bool_decide_eq_false_2.
Qed.

Ltac playing_cases Hc :=
  unfold playing_block;
  destruct (selected_q _ !! current_idx _) as [?q|]; [|done];
  destruct (if is_multi _ then _ else _) as [[?l ?r]|]; [|done];
  rewrite ?(pressed_clicked _ _ _ Hc); simpl.

(** X6: the buttons of the playing page act only in their turn: an
    answered question cannot be submitted again, an open question can be
    neither skipped nor used to finish, the attempt cannot be finished
    before its last question and [next] does nothing on the last one; in
    all these cases the event leaves the whole state as it was. *)
Theorem buttons_out_of_turn_do_nothing u s :
  app_state s = Playing →
  (answered s = true → clicked u = Some BtnSubmit → (run u s).2 = s) ∧
  (answered s = false → clicked u = Some BtnNext ∨ clicked u = Some BtnFinish →
     (run u s).2 = s) ∧
  ((current_idx s + 1 < length (selected_q s))%nat → clicked u = Some BtnFinish →
     (run u s).2 = s) ∧
  ((length (selected_q s) ≤ current_idx s + 1)%nat → clicked u = Some BtnNext →
     (run u s).2 = s).
Proof.
  intros Hplay. split_and!.
  - intros Ha Hc. unfold run. rewrite (script_pass_playing u s BtnSubmit) by done.
    playing_cases Hc. rewrite Ha. simpl. by destruct (_ <? _).
  - intros Ha [Hc|Hc]; unfold run.
    + rewrite (script_pass_playing u s BtnNext) by done.
      playing_cases Hc. by rewrite Ha.
    + rewrite (script_pass_playing u s BtnFinish) by done.
      playing_cases Hc. by rewrite Ha.
  - intros Hlt Hc. unfold run. rewrite (script_pass_playing u s BtnFinish) by done.
    playing_cases Hc. destruct (answered s); simpl; [|done].
    destruct (_ <? _) eqn:Hltb; [done|]. apply Z.ltb_ge in Hltb. lia.
  - intros Hge Hc. unfold run. rewrite (script_pass_playing u s BtnNext) by done.
    playing_cases Hc. destruct (answered s); simpl; [|done].
    destruct (_ <? _) eqn:Hltb; [|done]. apply Z.ltb_lt in Hltb. lia.
Qed.

Lemma buttons_out_of_turn_do_nothing_witness :
  (run (demo_inputs PageRandom (Some BtnSubmit) 5 [0; 1]%nat None)
       demo_last_answered).2 = demo_last_answered.
Proof.
  refine (proj1 (buttons_out_of_turn_do_nothing
            (demo_inputs PageRandom (Some BtnSubmit) 5 [0; 1]%nat None)
            demo_last_answered _) _ _); vm_compute; reflexivity.
Defined.

(** X7: a click on [next] never touches score, ledger, history, trace
    lists, files or the selected questions; either it changes nothing at
    all, or the question shown was answered and was not the last one, and
    the position moves on by one with the new question open. *)
Theorem next_only_moves_position u s :
  app_state s = Playing →
  clicked u = Some BtnNext →
  score (run u s).2 = score s ∧
  mistakes (run u s).2 = mistakes s ∧
  history (run u s).2 = history s ∧
  heap (run u s).2 = heap s ∧
  disk (run u s).2 = disk s ∧
  selected_q (run u s).2 = selected_q s ∧
  app_state (run u s).2 = Playing ∧
  ((run u s).2 = s ∨
   answered s = true ∧ (current_idx s + 1 < length (selected_q s))%nat ∧
   current_idx (run u s).2 = (current_idx s + 1)%nat ∧
   answered (run u s).2 = false).
Proof.
  intros Hplay Hc. unfold run. rewrite (script_pass_playing u s BtnNext) by done.
  unfold playing_block.
  destruct (selected_q s !! current_idx s) as [q|];
    [|by (split_and!; [done..|by left])].
  destruct (if is_multi q then _ else _) as [[l r]|];
    [|by (split_and!; [done..|by left])].
  rewrite !(pressed_clicked _ _ _ Hc). simpl.
  destruct (answered s) eqn:Ha; simpl; [|by (split_and!; [done..|by left])].
  destruct (_ <? _) eqn:Hltb; simpl; [|by (split_and!; [done..|by left])].
  apply Z.ltb_lt in Hltb.
  rewrite script_pass_quiet_playing by done. simpl.
  split_and!; [done..|]. right. split_and!; [done|lia|done|done].
Qed.

Lemma next_only_moves_position_witness :
  current_idx (run (demo_inputs PageRandom (Some BtnNext) 5 [] None)
                 (run (demo_inputs PageRandom (Some BtnSubmit) 5 []
                         (Some "B. beta"%string)) demo_started).2).2 = 1%nat
  ∧ score (run (demo_inputs PageRandom (Some BtnNext) 5 [] None)
             (run (demo_inputs PageRandom (Some BtnSubmit) 5 []
                     (Some "B. beta"%string)) demo_started).2).2 = 0%nat.
Proof.
  split; [vm_compute; reflexivity|].
  etrans.
  - refine (proj1 (next_only_moves_position
              (demo_inputs PageRandom (Some BtnNext) 5 [] None)
              (run (demo_inputs PageRandom (Some BtnSubmit) 5 []
                      (Some "B. beta"%string)) demo_started).2 _ _));
      vm_compute; reflexivity.
  - vm_compute; reflexivity.
Defined.

(** ** The idle pages *)

Lemma script_pass_unclicked_app_state u s :
  clicked u = None → app_state (script_pass u s).2 = app_state s.
Proof.
  intros Hc. unfold script_pass. rewrite !pressed_unclicked by done.
  destruct (is_home (page u) && negb (is_playing (app_state s))).
  { unfold home_block. by destruct (all_questions u). }
  destruct (app_state s) eqn:Hst.
  - destruct (idle_block_unclicked u s Hc) as [-> | (_ & _ & _ & ->)]; done.
  - by rewrite playing_block_quiet.
  - unfold finished_block. rewrite pressed_unclicked by done.
    by destruct (length (selected_q s)).
Qed.

(** X8: when the review page is drawn in the idle state with a ledger
    that is not empty and none of whose keys is the content of a loaded
    question, the ledger is emptied, the ledger file is rewritten as the
    empty mapping and the run stops: no attempt starts, whatever button
    of the page is pressed, and nothing else changes. *)
Theorem stale_ledger_is_dropped u s :
  app_state s = Idle →
  page u = PageMistake →
  clicked u ≠ Some BtnForceReset → clicked u ≠ Some BtnSync →
  all_questions u ≠ [] →
  mistakes s ≠ ∅ →
  (∀ q, q ∈ all_questions u → mistakes s !! q_content q = None) →
  run u s = (Stopped, save_mistakes (set_mistakes ∅ s)) ∧
  mistakes (run u s).2 = ∅ ∧
  mistakes_file (disk (run u s).2) = Content (Mapping ∅) ∧
  history_file (disk (run u s).2) = history_file (disk s) ∧
  app_state (run u s).2 = Idle ∧
  history (run u s).2 = history s.
Proof.
  intros Hidle Hpage Hr Hs Hbank Hne Hstale.
  assert (Hpass : script_pass u s = (Stopped, save_mistakes (set_mistakes ∅ s))).
  { unfold script_pass, pressed.
    rewrite !bool_decide_eq_false_2 by done. rewrite Hpage, Hidle. simpl.
    unfold idle_block. rewrite Hpage.
    destruct (all_questions u) as [|q0 bank] eqn:Hb; [done|].
    rewrite bool_decide_eq_false_2 by done.
    destruct (filter _ _) as [|p0 pool] eqn:Hpool; [done|].
    assert (Hin : p0 ∈ filter (λ q, is_Some (mistakes s !! q_content q)) (q0 :: bank)).
    { rewrite Hpool. left. }
    apply list_elem_of_filter in Hin as [[v Hv] Hin].
    by rewrite (Hstale p0 Hin) in Hv. }
  rewrite (run_settled _ _ _ _ Hpass) by done. by split_and!.
Qed.

Lemma stale_ledger_is_dropped_witness :
  mistakes
    (run (demo_inputs PageMistake (Some BtnStartMistake) 1 [] None)
         (boot {| mistakes_file := Content (LegacyList [py "gone"]);
                  history_file := Missing |})).2 = ∅.
Proof.
  refine (proj1 (proj2 (stale_ledger_is_dropped
            (demo_inputs PageMistake (Some BtnStartMistake) 1 [] None)
            (boot {| mistakes_file := Content (LegacyList [py "gone"]);
                     history_file := Missing |}) _ _ _ _ _ _ _)));
    try reflexivity; try discriminate.
  intros q Hq. unfold demo_inputs, all_questions, demo_bank in Hq.
  repeat (apply elem_of_cons in Hq as [-> | Hq]; [vm_compute; reflexivity|]).
  by apply elem_of_nil in Hq.
Defined.

(** X9: the sync button abandons whatever is in progress and draws the
    idle page over the question bank as read again from the files: the
    session is idle, history and trace lists are untouched, and the
    ledger keeps the entry of every question of the reloaded bank; the
    ledger changes only when the review page finds none of its keys in
    the reloaded bank, and is then emptied. *)
Theorem sync_rereads_the_bank u s :
  clicked u = Some BtnSync →
  script_pass u s = (Rerun, set_app_state Idle s) ∧
  all_questions (after_rerun u) = xlsx_questions u ∧
  app_state (run u s).2 = Idle ∧
  history (run u s).2 = history s ∧
  heap (run u s).2 = heap s ∧
  history_file (disk (run u s).2) = history_file (disk s) ∧
  (∀ q, q ∈ xlsx_questions u →
        mistakes (run u s).2 !! q_content q = mistakes s !! q_content q) ∧
  (mistakes (run u s).2 = mistakes s ∧ disk (run u s).2 = disk s ∨
   page u = PageMistake ∧ mistakes s ≠ ∅ ∧
   (∀ q, q ∈ xlsx_questions u → mistakes s !! q_content q = None) ∧
   mistakes (run u s).2 = ∅ ∧
   mistakes_file (disk (run u s).2) = Content (Mapping ∅)).
Proof.
  intros Hc.
  assert (Hpass : script_pass u s = (Rerun, set_app_state Idle s)).
  { unfold script_pass. by rewrite !(pressed_clicked _ _ _ Hc). }
  assert (Hbank : all_questions (after_rerun u) = xlsx_questions u).
  { simpl. by rewrite (pressed_clicked _ _ _ Hc). }
  split; [done|]. split; [done|]. rewrite (run_rerun _ _ _ Hpass).
  assert (Hcases :
    (script_pass (after_rerun u) (set_app_state Idle s)).2 = set_app_state Idle s ∨
    (page u = PageMistake ∧ mistakes s ≠ ∅ ∧
     filter (λ q, is_Some (mistakes s !! q_content q)) (xlsx_questions u) = [] ∧
     (script_pass (after_rerun u) (set_app_state Idle s)).2
     = save_mistakes (set_mistakes ∅ (set_app_state Idle s)))).
  { unfold script_pass. rewrite !after_rerun_unclicked.
    change (page (after_rerun u)) with (page u).
    change (app_state (set_app_state Idle s)) with Idle.
    destruct (page u) eqn:Hpage; simpl.
    - left. unfold home_block. by destruct (all_questions _).
    - destruct (idle_block_unclicked (after_rerun u) (set_app_state Idle s))
        as [? | (Hp & _)]; [done|by left|]. simpl in Hp. congruence.
    - destruct (idle_block_unclicked (after_rerun u) (set_app_state Idle s))
        as [? | (_ & Hne & Hpool & ?)]; [done|by left|].
      right. rewrite Hbank in Hpool. done. }
  destruct Hcases as [-> | (Hpage & Hne & Hpool & ->)]; simpl.
  - split_and!; try done. by left.
  - assert (Hstale : ∀ q, q ∈ xlsx_questions u → mistakes s !! q_content q = None).
    { intros q Hq. destruct (mistakes s !! q_content q) as [v|] eqn:Hv; [|done].
      assert (Hin : q ∈ filter (λ q, is_Some (mistakes s !! q_content q))
                               (xlsx_questions u)).
      { apply list_elem_of_filter. split; [by rewrite Hv|done]. }
      rewrite Hpool in Hin. by apply elem_of_nil in Hin. }
    split_and!; try done.
    + intros q Hq. by rewrite (Hstale q Hq), lookup_empty.
    + by right.
Qed.

Lemma sync_rereads_the_bank_witness :
  app_state (run (demo_inputs PageRandom (Some BtnSync) 5 [] None)
                 demo_last_answered).2 = Idle.
Proof.
  exact (proj1 (proj2 (proj2 (sync_rereads_the_bank
           (demo_inputs PageRandom (Some BtnSync) 5 [] None)
           demo_last_answered eq_refl)))).
Defined.
(** ** How an attempt begins *)

Lemma start_count_range u md pool :
  pool ≠ [] → 1 ≤ start_count u md pool ≤ Z.of_nat (length pool).
Proof.
  intros Hpool. destruct pool; [done|].
  destruct md; apply number_input_range; simpl; lia.
Qed.

Lemma idle_block_started u s :
  app_state s = Idle →
  app_state (idle_block u s).2 = Playing →
  ∃ md pool,
    (md = ModeRandom ∧ page u = PageRandom ∧ clicked u = Some BtnStart ∧
     pool = all_questions u ∨
     md = ModeMistake ∧ page u = PageMistake ∧ clicked u = Some BtnStartMistake ∧
     pool = filter (λ q, is_Some (mistakes s !! q_content q)) (all_questions u)) ∧
    pool ≠ [] ∧
    idle_block u s = start_quiz u md pool (start_count u md pool) s.
Proof.
  intros Hidle. unfold idle_block.
  destruct (all_questions u) as [|q0 bank] eqn:Hbank; simpl; [congruence|].
  destruct (page u) eqn:Hpage; simpl; [congruence| |].
  - unfold pressed. case_bool_decide as Hc; simpl; [|congruence].
    intros _. exists ModeRandom, (q0 :: bank).
    split; [by left|]. split; done.
  - case_bool_decide as Hempty; simpl; [congruence|].
    destruct (filter _ _) as [|p0 pool] eqn:Hpool; simpl; [congruence|].
    unfold pressed. case_bool_decide as Hc; simpl; [|congruence].
    intros _. exists ModeMistake, (p0 :: pool).
    split; [by right|]. split; done.
Qed.

(** The only way into the playing state. *)
Lemma run_started u s :
  app_state s ≠ Playing →
  app_state (run u s).2 = Playing →
  app_state s = Idle ∧
  ∃ md pool,
    (md = ModeRandom ∧ page u = PageRandom ∧ clicked u = Some BtnStart ∧
     pool = all_questions u ∨
     md = ModeMistake ∧ page u = PageMistake ∧ clicked u = Some BtnStartMistake ∧
     pool = filter (λ q, is_Some (mistakes s !! q_content q)) (all_questions u)) ∧
    1 ≤ start_count u md pool ≤ Z.of_nat (length pool) ∧
    starts_attempt md pool (start_count u md pool) s (run u s).2 ∧
    selected_q (run u s).2 =
      sample_loop (rng u) 0 (Z.to_nat (start_count u md pool)) pool.
Proof.
  intros Hnp Hplay.
  assert (Hfinal : ∃ o s1, script_pass u s = (o, s1) ∧ app_state s1 = Playing ∧
                           (run u s).2 = s1).
  { unfold run in *. destruct (script_pass u s) as [o s1]. exists o, s1.
    destruct o; simpl in *; try done.
    rewrite script_pass_unclicked_app_state in Hplay by done.
    by rewrite script_pass_quiet_playing. }
  destruct Hfinal as (o & s1 & Hp1 & Hs1 & ->).
  unfold script_pass in Hp1.
  destruct (pressed u BtnForceReset); [injection Hp1 as <- <-; done|].
  destruct (pressed u BtnSync); [injection Hp1 as <- <-; done|].
  destruct (is_home (page u) && negb (is_playing (app_state s))).
  { unfold home_block in Hp1. destruct (all_questions u); injection Hp1 as <- <-; done. }
  destruct (app_state s) eqn:Hst; [|done|].
  - destruct (idle_block_started u s) as (md & pool & Hcase & Hpool & Hstart);
      [done|by rewrite Hp1|].
    pose proof (start_count_range u md pool Hpool) as Hnum.
    split; [done|]. exists md, pool.
    destruct (start_quiz_spec u md pool (start_count u md pool) s)
      as (s2 & Hs2 & Hatt); [lia|].
    rewrite Hstart, Hs2 in Hp1. injection Hp1 as <- <-.
    split; [done|]. split; [done|]. split; [done|].
    unfold start_quiz, random_sample in Hs2.
    rewrite bool_decide_eq_true_2 in Hs2 by lia. by injection Hs2 as <-.
  - unfold finished_block in Hp1.
    destruct (length (selected_q s)); [injection Hp1 as <- <-; congruence|].
    destruct (pressed u BtnBack); injection Hp1 as <- <-; simpl in Hs1; congruence.
Qed.

(** X10: an attempt begins in one way only.  If a session that is not
    playing is playing after an event, the session was idle and the event
    was a click on the start button of the random page or of the review
    page, with a count between 1 and the size of that page's pool; the
    round id went up by one.  The count is the value the number input of
    the page returns: the number typed when that lies between 1 and the
    size of the pool, and the default of the input otherwise; the attempt
    has that many questions.  In particular the finished page never
    leads back into an attempt. *)
Theorem attempt_begins_only_by_start u s :
  app_state s ≠ Playing →
  app_state (run u s).2 = Playing →
  app_state s = Idle ∧
  ∃ count,
    (page u = PageRandom ∧ clicked u = Some BtnStart ∧
     count = number_input 1 (Z.of_nat (length (all_questions u)))
               (Z.min 20 (Z.of_nat (length (all_questions u)))) (num_input u) ∧
     1 ≤ count ≤ Z.of_nat (length (all_questions u)) ∧
     (1 ≤ num_input u ≤ Z.of_nat (length (all_questions u)) → count = num_input u) ∧
     play_mode (run u s).2 = ModeRandom
     ∨
     page u = PageMistake ∧ clicked u = Some BtnStartMistake ∧
     (let pool := filter (λ q, is_Some (mistakes s !! q_content q)) (all_questions u) in
      count = number_input 1 (Z.of_nat (length pool)) (Z.of_nat (length pool))
                (num_input u) ∧
      1 ≤ count ≤ Z.of_nat (length pool) ∧
      (1 ≤ num_input u ≤ Z.of_nat (length pool) → count = num_input u)) ∧
     play_mode (run u s).2 = ModeMistake) ∧
    round_id (run u s).2 = (round_id s + 1)%nat ∧
    length (selected_q (run u s).2) = Z.to_nat count.
Proof.
  intros Hnp Hplay.
  destruct (run_started u s Hnp Hplay)
    as (Hidle & md & pool & Hcase & Hnum & Hatt & _).
  destruct Hatt as (_ & Hmode & Hlen & _ & _ & _ & _ & Hround & _).
  split; [done|]. exists (start_count u md pool).
  split_and!; [|done|done].
  destruct Hcase as [(-> & ? & ? & ->) | (-> & ? & ? & ->)]; [left|right].
  - split_and!; [done|done|done|lia|lia| |done].
    intros Hin. by apply number_input_typed.
  - split_and!; [done|done| |done]. cbv zeta.
    split_and!; [done|lia|lia|].
    intros Hin. by apply number_input_typed.
Qed.

Lemma attempt_begins_only_by_start_witness :
  app_state (boot demo_disk) = Idle ∧ round_id demo_started = 1%nat ∧
  length (selected_q demo_started) = 5%nat.
Proof.
  destruct (attempt_begins_only_by_start
              (demo_inputs PageRandom (Some BtnStart) 5 [] None) (boot demo_disk))
    as (Hidle & count & Hcase & Hround & Hlen).
  - vm_compute. discriminate.
  - vm_compute. reflexivity.
  - split; [exact Hidle|]. split; [exact Hround|].
    destruct Hcase as [(_ & _ & -> & _) | (Hpage & _)]; [exact Hlen|discriminate Hpage].
Defined.

Lemma sample_loop_all {A} rng i (pool : list A) :
  sample_loop rng i (length pool) pool ≡ₚ pool.
Proof.
  destruct (sample_loop_spec rng (length pool) i pool) as [Hlen [rest Hrest]]; [done|].
  assert (rest = []) as ->.
  { apply Permutation_length in Hrest. rewrite length_app, Hlen in Hrest.
    destruct rest; [done|]. simpl in Hrest. lia. }
  by rewrite app_nil_r in Hrest.
Qed.

(** X11: a random quiz started with as many questions as the bank holds
    asks every question of the bank exactly once: the selected questions
    are a rearrangement of the bank. *)
Theorem full_quiz_is_a_rearrangement u s :
  app_state s = Idle →
  page u = PageRandom →
  clicked u = Some BtnStart →
  all_questions u ≠ [] →
  num_input u = Z.of_nat (length (all_questions u)) →
  app_state (run u s).2 = Playing ∧
  selected_q (run u s).2 ≡ₚ all_questions u.
Proof.
  intros Hidle Hpage Hc Hbank Hnum.
  assert (Hpass : script_pass u s = idle_block u s).
  { unfold script_pass. by rewrite !(pressed_clicked _ _ _ Hc), Hpage, Hidle. }
  assert (Hlen : 1 ≤ num_input u ≤ Z.of_nat (length (all_questions u))).
  { rewrite Hnum. destruct (all_questions u); [done|]. simpl. lia. }
  unfold idle_block in Hpass. rewrite Hpage, (pressed_clicked _ _ _ Hc) in Hpass.
  destruct (all_questions u) as [|q0 bank] eqn:Hb; [done|].
  cbv zeta in Hpass. rewrite number_input_typed in Hpass by done.
  destruct (start_quiz_spec u ModeRandom (q0 :: bank) (num_input u) s)
    as (s1 & Hstart & Hatt); [lia|].
  rewrite Hstart in Hpass.
  rewrite (run_rerun _ _ _ Hpass).
  rewrite script_pass_quiet_playing; [|done|apply Hatt].
  split; [apply Hatt|].
  unfold start_quiz, random_sample in Hstart.
  rewrite bool_decide_eq_true_2 in Hstart by lia. injection Hstart as <-. simpl.
  rewrite Hnum, Nat2Z.id. apply sample_loop_all.
Qed.

Lemma full_quiz_is_a_rearrangement_witness :
  selected_q demo_started ≡ₚ demo_bank.
Proof.
  refine (proj2 (full_quiz_is_a_rearrangement
            (demo_inputs PageRandom (Some BtnStart) 5 [] None) (boot demo_disk)
            _ _ _ _ _)); try reflexivity.
  discriminate.
Defined.

(** X12: every question of an attempt comes from the loaded bank, and
    in a review every question of the attempt is one whose content is a
    key of the ledger at the start, so a review never asks a question
    that is not in the ledger. *)
Theorem attempt_questions_come_from_pool u s :
  app_state s ≠ Playing →
  app_state (run u s).2 = Playing →
  ∀ q, q ∈ selected_q (run u s).2 →
       q ∈ all_questions u ∧
       (play_mode (run u s).2 = ModeMistake →
        is_Some (mistakes (run u s).2 !! q_content q)).
Proof.
  intros Hnp Hplay q Hq.
  destruct (run_started u s Hnp Hplay)
    as (Hidle & md & pool & Hcase & Hnum & Hatt & _).
  destruct Hatt as (_ & Hmode & _ & Hdrawn & _ & _ & _ & _ & _ & Hm & _).
  pose proof (drawn_from_elem_of _ _ q Hdrawn Hq) as Hpool.
  rewrite Hm, Hmode.
  destruct Hcase as [(-> & _ & _ & ->) | (-> & _ & _ & ->)]; [done|].
  apply list_elem_of_filter in Hpool as [? ?]. done.
Qed.

Lemma attempt_questions_come_from_pool_witness :
  is_Some (mistakes demo_review !! py "Q2").
Proof.
  refine (proj2 (attempt_questions_come_from_pool
            (demo_inputs PageMistake (Some BtnStartMistake) 2 [] None)
            (boot demo_disk) _ _ (demo_question "Q2" MultiChoice "BA") _) _).
  - vm_compute. discriminate.
  - vm_compute. reflexivity.
  - vm_compute. right. left.
  - vm_compute. reflexivity.
Defined.

(** ** Verdicts *)

(** X13: for a question that is not multi-choice the answer string is
    the first character of the chosen option, and the verdict is right
    exactly when the stored answer is that one character; a stored
    answer of any other length can never be answered right. *)
Theorem single_choice_verdict q l c o s :
  is_multi q = false →
  user_answer q l (Some (c :: o)) = Some [c] ∧
  is_correct (submit_answer q l (Some (c :: o)) s).2 = bool_decide (q_answer q = [c]) ∧
  (length (q_answer q) ≠ 1%nat →
   is_correct (submit_answer q l (Some (c :: o)) s).2 = false).
Proof.
  intros Hm.
  assert (Hu : user_answer q l (Some (c :: o)) = Some [c]).
  { unfold user_answer. by rewrite Hm. }
  assert (Hv : is_correct (submit_answer q l (Some (c :: o)) s).2
               = bool_decide (q_answer q = [c])).
  { unfold submit_answer. rewrite Hu. simpl. rewrite grade_is_correct.
    apply bool_decide_ext. rewrite <- (sorted_singleton c), sorted_eq_Permutation.
    split.
    - intros Hp. symmetry. by apply Permutation_singleton_l.
    - by intros ->. }
  split_and!; [done..|].
  intros Hlen. rewrite Hv. apply bool_decide_eq_false_2. intros Heq.
  by rewrite Heq in Hlen.
Qed.

Lemma single_choice_verdict_witness :
  is_correct (submit_answer (demo_question "Q4" SingleChoice "AB") []
                (Some (py "A. alpha")) demo_started).2 = false.
Proof.
  refine (proj2 (proj2 (single_choice_verdict
            (demo_question "Q4" SingleChoice "AB") [] _ _ demo_started _)) _).
  - reflexivity.
  - vm_compute. discriminate.
Defined.

(** X14: for a multi-choice question with at least one box ticked, the
    verdict is right exactly when the ticked labels are a rearrangement
    of the characters of the stored answer: a label too many, a label
    missing or a character repeated in the stored answer makes the
    answer wrong. *)
Theorem multi_choice_verdict q l r s :
  is_multi q = true →
  l ≠ [] →
  (is_correct (submit_answer q l r s).2 = true ↔ l ≡ₚ q_answer q) ∧
  (length l ≠ length (q_answer q) → is_correct (submit_answer q l r s).2 = false).
Proof.
  intros Hm Hl.
  assert (Hv : is_correct (submit_answer q l r s).2
               = bool_decide (sorted l = sorted (q_answer q))).
  { unfold submit_answer, user_answer. rewrite Hm.
    destruct l; [done|]. simpl. by rewrite grade_is_correct. }
  rewrite Hv. split.
  - rewrite bool_decide_eq_true. apply sorted_eq_Permutation.
  - intros Hlen. apply bool_decide_eq_false_2.
    intros Hp%sorted_eq_Permutation. by apply Permutation_length in Hp.
Qed.

Lemma multi_choice_verdict_witness :
  is_correct (submit_answer (demo_question "Q5" MultiChoice "ACD") (py "AC") None
                demo_started).2 = false.
Proof.
  refine (proj2 (multi_choice_verdict
            (demo_question "Q5" MultiChoice "ACD") (py "AC") None demo_started _ _) _).
  - reflexivity.
  - discriminate.
  - vm_compute. discriminate.
Defined.

(** ** The review panel *)

Lemma mark_of_same_answer rec c :
  rec_user_ans rec = rec_correct_ans rec →
  mark_of rec c = ChosenRight ∨ mark_of rec c = Unmarked.
Proof.
  intros Heq. unfold mark_of. rewrite Heq.
  destruct (letter_in c (rec_correct_ans rec)); simpl; auto.
Qed.

Lemma render_options_lines rec opts m opt :
  OptionLine m opt ∈ (render_options rec opts).1 →
  ∃ c rest, opt = c :: rest ∧ opt ∈ opts ∧ m = mark_of rec c.
Proof.
  induction opts as [|o opts IH]; simpl; [by intros ?%elem_of_nil|].
  destruct o as [|c rest]; simpl; [by intros ?%elem_of_nil|].
  destruct (render_options rec opts) as [lines ok]. simpl in *.
  intros [Heq | Hin]%elem_of_cons.
  - injection Heq as -> ->. exists c, rest. split_and!; [done|left|done].
  - destruct (IH Hin) as (c' & rest' & -> & Hopt & ->).
    exists c', rest'. split_and!; [done|by right|done].
Qed.

Lemma render_record_lines rec m opt :
  OptionLine m opt ∈ (render_record rec).1 →
  ∃ c rest, opt = c :: rest ∧ opt ∈ rec_options rec ∧ m = mark_of rec c.
Proof.
  unfold render_record.
  pose proof (render_options_lines rec (rec_options rec) m opt) as Hlines.
  destruct (render_options rec (rec_options rec)) as [lines ok]. simpl in Hlines.
  destruct ok; simpl; intros Hin; apply Hlines.
  - apply elem_of_cons in Hin as [?|Hin]; [done|].
    apply elem_of_cons in Hin as [?|Hin]; [done|].
    apply elem_of_app in Hin as [?|Hin]; [done|].
    repeat (apply elem_of_cons in Hin as [?|Hin]; [done|]).
    by apply elem_of_nil in Hin.
  - apply elem_of_cons in Hin as [?|Hin]; [done|].
    apply elem_of_cons in Hin as [?|Hin]; [done|]. done.
Qed.

(** X15: in the review panel of an attempt, a question shown as
    answered right (✅) has no option marked as a wrong choice or as a
    missed right answer: each of its option lines is marked as a right
    choice or not marked at all. *)
Theorem right_answers_show_no_wrong_marks s recs t m opt :
  reachable s →
  app_state s ≠ Idle →
  heap s !! session_records s = Some recs →
  t ∈ recs →
  rec_is_correct t = true →
  OptionLine m opt ∈ (render_record t).1 →
  m = ChosenRight ∨ m = Unmarked.
Proof.
  intros Hreach Hne Hrecs Ht Hright Hline.
  destruct (reachable_traces_ok s Hreach Hne) as (recs' & Hrecs' & Htr).
  rewrite Hrecs in Hrecs'. injection Hrecs' as <-.
  apply list_elem_of_lookup in Ht as [i Hi].
  destruct (Htr i t Hi) as (q & _ & Htrace).
  destruct Htrace as (_ & _ & _ & _ & _ & _ & _ & _ & Hverdict).
  rewrite Hright in Hverdict. symmetry in Hverdict.
  apply bool_decide_eq_true in Hverdict.
  destruct (render_record_lines t m opt Hline) as (c & rest & _ & _ & ->).
  by apply mark_of_same_answer.
Qed.

Lemma right_answers_show_no_wrong_marks_witness :
  ChosenRight = ChosenRight ∨ ChosenRight = Unmarked.
Proof.
  refine (right_answers_show_no_wrong_marks demo_last_answered
            (default [] (heap demo_last_answered !! session_records demo_last_answered))
            demo_first_trace ChosenRight (py "A. alpha") _ _ _ _ _ _).
  - apply reachable_play, reach_run, reach_boot.
  - vm_compute. discriminate.
  - vm_compute. reflexivity.
  - apply list_elem_of_lookup. exists 0%nat. vm_compute. reflexivity.
  - reflexivity.
  - apply list_elem_of_lookup. exists 2%nat. vm_compute. reflexivity.
Defined.

(** ** The loader *)

Section loader.
Variable upper : pystr → pystr.
Variable strip : pystr → pystr.

Lemma options_lettered (r : row) (ks : list N) :
  ∃ picks : list (N * pystr),
    ks ≫= option_of r = (λ p, [p.1; 46; 32]%N ++ p.2) <$> picks ∧
    picks.*1 `sublist_of` ks.
Proof.
  induction ks as [|k ks (picks & Heq & Hsub)]; [by exists []|].
  rewrite bind_cons, Heq. unfold option_of.
  destruct (r (col_option k)) as [[|v]|].
  - exists picks. split; [done|]. by apply sublist_cons.
  - exists ((k, v) :: picks). split; [done|]. simpl. by apply sublist_skip.
  - exists picks. split; [done|]. by apply sublist_cons.
Qed.

Lemma remove_spaces_no_space s : 32%N ∉ remove_spaces s.
Proof. unfold remove_spaces. intros [Hne _]%list_elem_of_filter. done. Qed.

Lemma options_of_cells (r : row) (ks : list N) :
  ks ≫= option_of r
  = (λ p : N * pystr, [p.1; 46; 32]%N ++ p.2) <$>
      omap (λ k, match r (col_option k) with
                 | Some (Val v) => Some (k, v)
                 | _ => None
                 end) ks.
Proof.
  induction ks as [|k ks IH]; [done|].
  rewrite bind_cons, IH. unfold option_of. csimpl.
  by destruct (r (col_option k)) as [[|v]|].
Qed.

Lemma parse_row_spec f r q :
  parse_row upper strip f r = Some q →
  q_source q = f ∧
  lettered (q_options q) ∧
  (32%N ∉ q_answer q) ∧
  (q_type q = TrueFalse → q_options q ≠ []) ∧
  (q_type q = MultiChoice ↔ contains txt_multi (get_str r col_type []) = true) ∧
  (∃ stem, r col_stem = Some (Val stem) ∧ q_content q = strip stem) ∧
  q_options q
  = if contains txt_judge (get_str r col_type []) &&
       bool_decide (option_letters ≫= option_of r = [])
    then [option_true; option_false]
    else option_letters ≫= option_of r.
Proof.
  unfold parse_row.
  destruct (_ || _ || _) eqn:Hmark; [|done].
  destruct (r col_stem) as [[|stem]|]; [done| |done].
  destruct (r col_answer) as [[|answer]|]; [done| |done].
  destruct (options_lettered r option_letters) as (picks & Hopts & Hsub).
  destruct (contains txt_judge (get_str r col_type []) &&
            bool_decide (option_letters ≫= option_of r = [])) eqn:Hjudge.
  - intros [= <-]. simpl. split_and!.
    + done.
    + exists [(65%N, [27491; 30830]%N); (66%N, [38169; 35823]%N)].
      split; [done|]. simpl. unfold option_letters.
      apply sublist_skip, sublist_skip, sublist_nil_l.
    + destruct (bool_decide (_ ∈ answers_true));
        [|destruct (bool_decide (_ ∈ answers_false))].
      * intros Hin%list_elem_of_singleton. discriminate Hin.
      * intros Hin%list_elem_of_singleton. discriminate Hin.
      * apply remove_spaces_no_space.
    + done.
    + by destruct (contains txt_multi _), (contains txt_judge _).
    + by exists stem.
    + done.
  - intros [= <-]. simpl. split_and!.
    + done.
    + by exists picks.
    + apply remove_spaces_no_space.
    + apply andb_false_iff in Hjudge as [Hj | Hempty].
      * rewrite Hj. by destruct (contains txt_multi _).
      * apply bool_decide_eq_false in Hempty. done.
    + by destruct (contains txt_multi _), (contains txt_judge _).
    + by exists stem.
    + done.
Qed.

(** X16: every question the loader produces comes from one of the
    globbed files, never from an Excel lock file (a name beginning with
    "~$"), and is made of a row of that file.  Its options are the
    filled option cells of that row for the letters A to D, in the order
    of the letters, each written as letter, dot, blank and the text of
    the cell; only a true/false row without any filled option cell gets
    the two default options "A. 正确" and "B. 错误" instead.  Its content
    is the stripped stem of the row; its stored answer has no blank; and
    a true/false question always has options. *)
Theorem loaded_questions_are_well_formed files read_excel q :
  q ∈ load_questions upper strip files read_excel →
  q_source q ∈ files ∧
  starts_with [126; 36]%N (q_source q) = false ∧
  lettered (q_options q) ∧
  Forall (λ opt, opt ≠ []) (q_options q) ∧
  (32%N ∉ q_answer q) ∧
  (q_type q = TrueFalse → q_options q ≠ []) ∧
  ∃ rows r stem,
    read_excel (q_source q) = Some rows ∧
    r ∈ rows ∧
    parse_row upper strip (q_source q) r = Some q ∧
    r col_stem = Some (Val stem) ∧
    q_content q = strip stem ∧
    let cells :=
      omap (λ k, match r (col_option k) with
                 | Some (Val v) => Some (k, v)
                 | _ => None
                 end) option_letters in
    (cells ≠ [] ∨ contains txt_judge (get_str r col_type []) = false →
     q_options q = (λ p : N * pystr, [p.1; 46; 32]%N ++ p.2) <$> cells) ∧
    (cells = [] → contains txt_judge (get_str r col_type []) = true →
     q_options q = [option_true; option_false]) ∧
    (∀ k v, k ∈ option_letters → r (col_option k) = Some (Val v) →
            [k; 46; 32]%N ++ v ∈ q_options q) ∧
    (∀ opt, opt ∈ q_options q →
            (∃ k v, k ∈ option_letters ∧ r (col_option k) = Some (Val v) ∧
                    opt = [k; 46; 32]%N ++ v) ∨
            (cells = [] ∧ (opt = option_true ∨ opt = option_false))).
Proof.
  unfold load_questions.
  destruct (filter _ files) as [|f0 kept] eqn:Hkept; [by intros ?%elem_of_nil|].
  rewrite <- Hkept. clear Hkept.
  intros (f & Hq & Hf)%list_elem_of_bind.
  apply list_elem_of_filter in Hf as [Hlock Hf].
  destruct (read_excel f) as [rows|] eqn:Hread; [|by apply elem_of_nil in Hq].
  apply list_elem_of_omap in Hq as (r & Hr & Hrow).
  destruct (parse_row_spec f r q Hrow)
    as (-> & Hopts & Hans & Htf & _ & (stem & Hstem & Hcontent) & Hcells).
  split_and!; [done|done|done| |done|done|].
  { destruct Hopts as (picks & -> & _).
    apply Forall_fmap, Forall_forall. by intros [k v] _. }
  exists rows, r, stem.
  split; [done|]. split; [done|]. split; [done|]. split; [done|]. split; [done|].
  rewrite options_of_cells in Hcells. cbv zeta.
  set (cells := omap _ option_letters) in *.
  assert (Hin : ∀ k v, (k, v) ∈ cells ↔
                       k ∈ option_letters ∧ r (col_option k) = Some (Val v)).
  { intros k v. unfold cells. rewrite list_elem_of_omap. split.
    - intros (k' & Hk' & Hcell).
      destruct (r (col_option k')) as [[|v']|] eqn:Hc; [done| |done].
      injection Hcell as -> ->. done.
    - intros [Hk Hcell]. exists k. by rewrite Hcell. }
  assert (Hnil : bool_decide
            ((λ p : N * pystr, [p.1; 46; 32]%N ++ p.2) <$> cells = [])
          = bool_decide (cells = [])).
  { apply bool_decide_ext. split; [apply fmap_nil_inv|by intros ->]. }
  rewrite Hnil in Hcells.
  split_and!.
  - intros [Hne | Hj].
    + by rewrite (bool_decide_eq_false_2 _ Hne), andb_false_r in Hcells.
    + by rewrite Hj in Hcells.
  - intros Hempty Hj.
    by rewrite Hj, (bool_decide_eq_true_2 _ Hempty) in Hcells.
  - intros k v Hk Hcell.
    assert (Hkv : (k, v) ∈ cells) by (by apply Hin).
    assert (Hne : cells ≠ []).
    { intros Heq. rewrite Heq in Hkv. by apply elem_of_nil in Hkv. }
    rewrite (bool_decide_eq_false_2 _ Hne), andb_false_r in Hcells.
    rewrite Hcells. apply list_elem_of_fmap. by exists (k, v).
  - intros opt Hopt. rewrite Hcells in Hopt.
    destruct (contains txt_judge _ && bool_decide (cells = [])) eqn:Hd.
    + right. apply andb_true_iff in Hd as [_ Hempty%bool_decide_eq_true].
      split; [done|].
      apply elem_of_cons in Hopt as [-> | Hopt]; [by left|].
      apply list_elem_of_singleton in Hopt. by right.
    + left. apply list_elem_of_fmap in Hopt as ([k v] & -> & Hkv).
      apply Hin in Hkv as [Hk Hcell]. by exists k, v.
Qed.

Lemma load_questions_app files1 files2 read_excel :
  load_questions upper strip (files1 ++ files2) read_excel
  = load_questions upper strip files1 read_excel
    ++ load_questions upper strip files2 read_excel.
Proof.
  assert (Hbind : ∀ files,
    load_questions upper strip files read_excel
    = filter (λ f, starts_with [126; 36]%N f = false) files ≫=
        (λ f, match read_excel f with
              | Some rows => omap (parse_row upper strip f) rows
              | None => []
              end)).
  { intros files. unfold load_questions. by destruct (filter _ files). }
  by rewrite !Hbind, filter_app, bind_app.
Qed.

(** X17: the bank is put together file by file: the load of a list of
    files is the load of its first part followed by the load of the
    rest; a lock file and a file that cannot be read contribute nothing
    and do not stop the files after them; a readable file contributes
    the questions of its accepted rows, in row order. *)
Theorem bank_is_loaded_file_by_file files1 files2 f files read_excel :
  load_questions upper strip (files1 ++ files2) read_excel
  = load_questions upper strip files1 read_excel
    ++ load_questions upper strip files2 read_excel ∧
  (starts_with [126; 36]%N f = true ∨ read_excel f = None →
   load_questions upper strip (f :: files) read_excel
   = load_questions upper strip files read_excel) ∧
  (∀ rows, starts_with [126; 36]%N f = false → read_excel f = Some rows →
   load_questions upper strip (f :: files) read_excel
   = omap (parse_row upper strip f) rows
     ++ load_questions upper strip files read_excel) ∧
  load_questions upper strip [] read_excel = [].
Proof.
  split_and!; [apply load_questions_app| | |done].
  - intros Hskip. rewrite (load_questions_app [f] files). 
    replace (load_questions upper strip [f] read_excel) with (@nil question); [done|].
    unfold load_questions. rewrite filter_cons, filter_nil.
    destruct Hskip as [Hlock | Hread].
    + rewrite decide_False; [done|]. by rewrite Hlock.
    + case_decide; [|done]. simpl. by rewrite Hread.
  - intros rows Hlock Hread. rewrite (load_questions_app [f] files). f_equal.
    unfold load_questions. rewrite filter_cons, filter_nil.
    rewrite decide_True by done. simpl. by rewrite Hread, app_nil_r.
Qed.

(** X18: a true/false row without option cells gets the two options
    "A. 正确" and "B. 错误", and the spellings of its answer are brought
    to the letters: if the normalised answer is one of 对, 正确, √, T,
    TRUE, choosing "A. 正确" is graded right and choosing "B. 错误" is
    graded wrong, and the other way round for 错, 错误, ×, F, FALSE. *)
Theorem true_false_row_is_answered_by_letter f r stem answer l s :
  contains txt_judge (get_str r col_type []) = true →
  contains txt_multi (get_str r col_type []) = false →
  r col_stem = Some (Val stem) →
  r col_answer = Some (Val answer) →
  (∀ k, k ∈ option_letters → option_of r k = []) →
  ∃ q, parse_row upper strip f r = Some q ∧
       q_type q = TrueFalse ∧
       q_options q = [option_true; option_false] ∧
       (normal_answer upper strip answer ∈ answers_true →
        is_correct (submit_answer q l (Some option_true) s).2 = true ∧
        is_correct (submit_answer q l (Some option_false) s).2 = false) ∧
       (normal_answer upper strip answer ∈ answers_false →
        is_correct (submit_answer q l (Some option_false) s).2 = true ∧
        is_correct (submit_answer q l (Some option_true) s).2 = false).
Proof.
  intros Hjudge Hmulti Hstem Hanswer Hnone.
  assert (Hopts : option_letters ≫= option_of r = []).
  { change (option_letters ≫= option_of r)
      with (option_of r 65%N ++ option_of r 66%N ++ option_of r 67%N
            ++ option_of r 68%N ++ []).
    rewrite !Hnone by (unfold option_letters; set_solver). done. }
  assert (Hverdict : ∀ q c o, is_multi q = false →
            is_correct (submit_answer q l (Some (c :: o)) s).2
            = bool_decide ([c] = sorted (q_answer q))).
  { intros q c o Hm. unfold submit_answer, user_answer. rewrite Hm. simpl.
    by rewrite grade_is_correct. }
  assert (Hnot : normal_answer upper strip answer ∈ answers_false →
                 normal_answer upper strip answer ∉ answers_true).
  { intros Hno Hyes. unfold answers_true, answers_false in *.
    set (a := normal_answer upper strip answer) in *. clearbody a.
    repeat (apply elem_of_cons in Hno as [-> | Hno];
            [repeat (apply elem_of_cons in Hyes as [Hyes | Hyes]; [done|]);
             by apply elem_of_nil in Hyes|]).
    by apply elem_of_nil in Hno. }
  unfold parse_row. rewrite Hjudge, Hmulti, Hstem, Hanswer, Hopts.
  rewrite orb_true_r. cbn [andb]. rewrite (bool_decide_eq_true_2 ([] = [])) by done.
  eexists. split; [reflexivity|].
  split; [done|]. split; [done|]. split.
  - intros Hyes. unfold option_true, option_false.
    rewrite !Hverdict by done. cbn [q_answer].
    by rewrite (bool_decide_eq_true_2 _ Hyes).
  - intros Hno. unfold option_true, option_false.
    rewrite !Hverdict by done. cbn [q_answer].
    by rewrite (bool_decide_eq_false_2 _ (Hnot Hno)), (bool_decide_eq_true_2 _ Hno).
Qed.

End loader.

Lemma loaded_questions_are_well_formed_witness :
  demo_true_false_question ∈ load_questions id id demo_files demo_read_excel ∧
  lettered (q_options demo_true_false_question).
Proof.
  assert (Hin : demo_true_false_question
                ∈ load_questions id id demo_files demo_read_excel).
  { apply list_elem_of_lookup. exists 0%nat. vm_compute. reflexivity. }
  split; [exact Hin|].
  exact (proj1 (proj2 (proj2 (loaded_questions_are_well_formed id id
           demo_files demo_read_excel demo_true_false_question Hin)))).
Defined.

Lemma bank_is_loaded_file_by_file_witness :
  load_questions id id demo_files demo_read_excel
  = load_questions id id [py "bank.xlsx"] demo_read_excel.
Proof.
  refine (proj1 (proj2 (bank_is_loaded_file_by_file id id [] []
            (py "~$bank.xlsx") [py "bank.xlsx"] demo_read_excel)) _).
  left. reflexivity.
Defined.

Lemma true_false_row_is_answered_by_letter_witness :
  ∃ q, parse_row id id (py "bank.xlsx") demo_true_false_row = Some q ∧
       is_correct (submit_answer q [] (Some option_true) demo_started).2 = true.
Proof.
  destruct (true_false_row_is_answered_by_letter id id (py "bank.xlsx")
              demo_true_false_row (py "Is the bond ionic?") (py "T") [] demo_started)
    as (q & Hrow & _ & _ & Hyes & _).
  - vm_compute. reflexivity.
  - vm_compute. reflexivity.
  - vm_compute. reflexivity.
  - vm_compute. reflexivity.
  - intros k Hk. unfold option_letters in Hk.
    repeat (apply elem_of_cons in Hk as [-> | Hk]; [vm_compute; reflexivity|]).
    by apply elem_of_nil in Hk.
  - exists q. split; [exact Hrow|]. apply Hyes.
    apply list_elem_of_lookup. exists 3%nat. vm_compute. reflexivity.
Defined.

(** ** Ticked labels of a loaded question *)

Lemma StronglySorted_sublist {A} (R : relation A) (l1 l2 : list A) :
  l1 `sublist_of` l2 → StronglySorted R l2 → StronglySorted R l1.
Proof.
  induction 1 as [|x l1 l2 Hsub IH|x l1 l2 Hsub IH]; intros Hs.
  - constructor.
  - apply StronglySorted_inv in Hs as [Hs Hx]. constructor; [by apply IH|].
    apply Forall_forall. intros y Hy. rewrite Forall_forall in Hx.
    by apply Hx, (sublist_subseteq _ _ Hsub).
  - apply StronglySorted_inv in Hs as [Hs _]. by apply IH.
Qed.

Lemma collect_checked_lettered cb (picks : list (N * pystr)) : ∀ i,
  ∃ l, collect_checked cb i ((λ p, [p.1; 46; 32]%N ++ p.2) <$> picks) = Some l ∧
       l `sublist_of` picks.*1.
Proof.
  induction picks as [|[k v] picks IH]; intros i.
  { by exists []. }
  destruct (IH (S i)) as (l & Hl & Hsub).
  rewrite fmap_cons. cbn [collect_checked fst snd app] in *.
  destruct (cb i).
  - rewrite Hl. exists (k :: l). split; [done|]. by apply sublist_skip.
  - rewrite Hl. exists l. split; [done|]. by apply sublist_cons.
Qed.

(** X19: for a question with a well-formed option list, as the loader
    makes them, reading the checkboxes never fails, and the ticked labels
    come out as letters of A to D in increasing order without
    repetition, so sorting them changes nothing. *)
Theorem ticked_labels_come_sorted q cb i :
  lettered (q_options q) →
  ∃ l, collect_checked cb i (q_options q) = Some l ∧
       l `sublist_of` option_letters ∧
       NoDup l ∧
       sorted l = l.
Proof.
  intros (picks & -> & Hsub).
  destruct (collect_checked_lettered cb picks i) as (l & Hl & Hsub').
  assert (Hletters : l `sublist_of` option_letters) by (by etrans).
  assert (Hsorted : StronglySorted N.le option_letters).
  { unfold option_letters. repeat constructor; lia. }
  exists l. split_and!; [done|done| |].
  - eapply sublist_NoDup; [|done]. by apply (bool_decide_unpack _).
  - apply (Sorted_unique N.le).
    + apply sorted_spec.
    + apply StronglySorted_Sorted. by eapply StronglySorted_sublist.
    + apply sorted_spec.
Qed.

Lemma ticked_labels_come_sorted_witness :
  collect_checked (λ i, bool_decide (i ∈ [0; 2; 3]%nat)) 0
    (q_options (demo_question "Q5" MultiChoice "ACD")) = Some (py "ACD")
  ∧ sorted (py "ACD") = py "ACD".
Proof.
  split; [vm_compute; reflexivity|].
  destruct (ticked_labels_come_sorted (demo_question "Q5" MultiChoice "ACD")
              (λ i, bool_decide (i ∈ [0; 2; 3]%nat)) 0) as (l & Hl & _ & _ & Hs).
  - exists [(65%N, py "alpha"); (66%N, py "beta"); (67%N, py "gamma");
            (68%N, py "delta")].
    split; [vm_compute; reflexivity|]. simpl. reflexivity.
  - assert (l = py "ACD") as <-; [|exact Hs].
    assert (Hc : collect_checked (λ i, bool_decide (i ∈ [0; 2; 3]%nat)) 0
                   (q_options (demo_question "Q5" MultiChoice "ACD"))
                 = Some (py "ACD")) by (vm_compute; reflexivity).
    rewrite Hc in Hl. by injection Hl.
Defined.

(** ** What an event leaves alone *)

Lemma grade_mistakes_frame q a c s k :
  k ≠ q_content q → mistakes (grade q a c s) !! k = mistakes s !! k.
Proof.
  intros Hk. unfold grade.
  destruct (bool_decide (a = c)); simpl.
  - destruct (play_mode s); simpl; try done.
    destruct (mistakes s !! q_content q) as [v|]; simpl; [|done].
    destruct (v - 1 <=? 0); simpl.
    + by rewrite lookup_delete_ne, lookup_insert_ne.
    + by rewrite lookup_insert_ne.
  - by rewrite lookup_insert_ne.
Qed.

Lemma pass_step_mistakes s s' :
  pass_step s s' →
  mistakes s' = mistakes s ∨
  (app_state s = Playing ∧ answered s = false ∧ answered s' = true ∧
   app_state s' = Playing ∧
   ∃ q, selected_q s !! current_idx s = Some q ∧
        ∀ k, k ≠ q_content q → mistakes s' !! k = mistakes s !! k) ∨
  (mistakes s' = ∅ ∧ app_state s = Idle ∧ app_state s' = Idle).
Proof.
  intros Hstep.
  destruct Hstep as [s|s|u md pool num s s' Hidle Hnum Hstart|s Hidle|q a s Hplay Hq Ha
                    |s Hplay Ha Hlt|s Hplay Ha Hlast|u s Hfin|u s Hfin];
    try by left.
  - left. unfold start_quiz in Hstart. destruct (random_sample _ _ _); [|done].
    by injection Hstart as <-.
  - right. right. done.
  - right. left. unfold answered_state, append_record. simpl.
    rewrite grade_answered, grade_app_state. simpl.
    split_and!; [done..|]. exists q. split; [done|].
    intros k Hk. by rewrite grade_mistakes_frame.
Qed.

Lemma script_pass_unclicked_mistakes u s :
  clicked u = None →
  mistakes (script_pass u s).2 = mistakes s ∨
  (mistakes (script_pass u s).2 = ∅ ∧ app_state s = Idle).
Proof.
  intros Hc.
  destruct (pass_step_mistakes s (script_pass u s).2 (script_pass_step u s))
    as [?|[(Hplay & Ha & Ha' & _)|(? & ? & _)]]; [by left| |by right].
  rewrite script_pass_quiet_playing in Ha' by done. congruence.
Qed.

(** X20: an event changes the ledger in two ways only.  Either it is an
    accepted answer to the question shown, and then no entry but that of
    the question's content can differ; or the session is idle afterwards
    and the ledger has been emptied by the review page.  Every other
    event leaves the ledger as it was. *)
Theorem ledger_changes_only_by_answers u s :
  mistakes (run u s).2 = mistakes s ∨
  (app_state s = Playing ∧ answered s = false ∧ answered (run u s).2 = true ∧
   ∃ q, selected_q s !! current_idx s = Some q ∧
        ∀ k, k ≠ q_content q →
             mistakes (run u s).2 !! k = mistakes s !! k) ∨
  (mistakes (run u s).2 = ∅ ∧ app_state (run u s).2 = Idle).
Proof.
  unfold run. pose proof (script_pass_step u s) as Hstep.
  destruct (script_pass u s) as [o s1]. simpl in Hstep.
  assert (Hsettled :
    mistakes s1 = mistakes s ∨
    (app_state s = Playing ∧ answered s = false ∧ answered s1 = true ∧
     app_state s1 = Playing ∧
     ∃ q, selected_q s !! current_idx s = Some q ∧
          ∀ k, k ≠ q_content q → mistakes s1 !! k = mistakes s !! k) ∨
    (mistakes s1 = ∅ ∧ app_state s = Idle ∧ app_state s1 = Idle))
    by (by apply pass_step_mistakes).
  destruct o; simpl.
  1, 3, 4: destruct Hsettled as [?|[(? & ? & ? & _ & ?)|(? & _ & ?)]];
    [by left|by (right; left)|by (right; right)].
  destruct Hsettled as [Hsame|[(Hplay & Ha & Ha' & Hplay' & Hq)|(Hempty & _ & Hidle)]].
  - destruct (script_pass_unclicked_mistakes (after_rerun u) s1) as [->|[He Hi]];
      [done|by left|].
    right. right. split; [done|].
    by rewrite script_pass_unclicked_app_state.
  - rewrite script_pass_quiet_playing by done. right. left. done.
  - right. right.
    rewrite script_pass_unclicked_app_state by done. split; [|done].
    destruct (script_pass_unclicked_mistakes (after_rerun u) s1) as [->|[He Hi]]; done.
Qed.

Lemma pass_step_finished s s' :
  pass_step s s' → app_state s' = Finished → app_state s ≠ Finished →
  app_state s = Playing ∧ answered s = true ∧
  (current_idx s + 1)%nat = length (selected_q s) ∧ history s' = history s.
Proof.
  intros Hstep Hfin Hnot.
  destruct Hstep as [s|s|u md pool num s s' Hidle Hnum Hstart|s Hidle|q a s Hplay Hq Ha
                    |s Hplay Ha Hlt|s Hplay Ha Hlast|u s Hfin'|u s Hfin'];
    simpl in *; try done.
  - unfold start_quiz in Hstart. destruct (random_sample _ _ _); [|done].
    injection Hstart as <-. done.
  - unfold answered_state, append_record in Hfin. simpl in Hfin.
    rewrite grade_app_state in Hfin. simpl in Hfin. congruence.
Qed.

Lemma grade_history_file q a c s :
  history_file (disk (grade q a c s)) = history_file (disk s).
Proof. unfold grade. repeat (case_match; simpl; try done). Qed.

(** A pass that does not begin in the finished state leaves the history
    alone: its entries, the traces they refer to, and the file. *)
Lemma pass_step_history_kept s s' :
  pass_step s s' → heap_ok s → app_state s ≠ Finished →
  history s' = history s ∧
  history_value s' = history_value s ∧
  history_file (disk s') = history_file (disk s).
Proof.
  intros Hstep (Hloc & Hhist & Hfresh) Hnot. unfold history_value.
  destruct Hstep as [s|s|u md pool num s s' Hidle Hnum Hstart|s Hidle|q a s Hplay Hq Ha
                    |s Hplay Ha Hlt|s Hplay Ha Hlast|u s Hfin|u s Hfin];
    simpl; try done.
  - unfold start_quiz in Hstart. destruct (random_sample _ _ _); [|done].
    injection Hstart as <-. simpl. by rewrite history_value_alloc.
  - rewrite grade_heap, grade_session_records, grade_history, grade_history_file.
    simpl. split; [done|]. split; [|done].
    apply history_value_alter. by apply Hfresh.
Qed.

(** A pass without a click that does not show the finished page leaves
    the history alone. *)
Lemma script_pass_quiet_history u s :
  clicked u = None →
  app_state s ≠ Finished ∨ page u = PageHome →
  history (script_pass u s).2 = history s ∧
  history_value (script_pass u s).2 = history_value s ∧
  history_file (disk (script_pass u s).2) = history_file (disk s).
Proof.
  intros Hc Hshown. unfold script_pass. rewrite !pressed_unclicked by done.
  destruct (is_home (page u) && negb (is_playing (app_state s))) eqn:Hhome.
  { unfold home_block. by destruct (all_questions u). }
  destruct (app_state s) eqn:Hst.
  - destruct (idle_block_unclicked u s Hc) as [->|(_ & _ & _ & ->)]; done.
  - by rewrite playing_block_quiet.
  - destruct Hshown as [?|Hpage]; [done|]. by rewrite Hpage in Hhome.
Qed.

(** The finished page, when it is shown, appends one entry. *)
Lemma finished_block_history u s recs :
  app_state s = Finished →
  heap s !! session_records s = Some recs →
  length (selected_q s) ≠ 0%nat →
  let s' := (finished_block u s).2 in
  history s' = history s ++ [summary_record u s] ∧
  history_value s' = history_value s ++ [with_details recs (summary_record u s)] ∧
  history_file (disk s') = Content (history_value s') ∧
  (app_state s' ≠ Finished ∨ (finished_block u s).1 ≠ Rerun).
Proof.
  intros Hfin Hrecs Hlen. unfold finished_block.
  destruct (length (selected_q s)); [done|].
  assert (Hval : history_value (archive u s)
                 = history_value s ++ [with_details recs (summary_record u s)]).
  { unfold history_value. simpl. rewrite fmap_app. simpl.
    unfold resolve at 2. simpl. by rewrite Hrecs. }
  destruct (pressed u BtnBack); simpl.
  - split; [done|]. split; [exact Hval|]. split; [reflexivity|by left].
  - split; [done|]. split; [exact Hval|]. split; [reflexivity|by right].
Qed.

(** The only pass that takes a playing session to the finished state is
    the one of a click on the finish button. *)
Lemma script_pass_finishes u s :
  app_state s = Playing →
  app_state (script_pass u s).2 = Finished →
  clicked u = Some BtnFinish ∧ script_pass u s = (Rerun, set_app_state Finished s).
Proof.
  intros Hplay. unfold script_pass.
  destruct (pressed u BtnForceReset); simpl; [done|].
  destruct (pressed u BtnSync); simpl; [done|].
  rewrite Hplay, andb_false_r. unfold playing_block.
  destruct (selected_q s !! current_idx s) as [q|] eqn:Hq; simpl; [|congruence].
  destruct (if is_multi q then _ else _) as [[l r]|]; simpl; [|congruence].
  destruct (answered s); simpl.
  - destruct (_ <? _); simpl.
    + destruct (pressed u BtnNext); simpl; congruence.
    + unfold pressed. case_bool_decide as Hc; simpl; [done|congruence].
  - destruct (pressed u BtnSubmit); simpl; [|congruence].
    unfold submit_answer. destruct (user_answer q l r); simpl; [|congruence].
    unfold append_record. simpl. rewrite grade_app_state. simpl. congruence.
Qed.

(** X21: the history is written only for an attempt that has ended.  In
    a session that the program can reach, an event either leaves the
    history as it is, entries, traces and file, or appends one entry to
    it and writes the file; and it appends only if the finished page is
    shown: the session was in the finished state, or it was playing its
    last question, already answered, and the event was the click on the
    finish button, and in both cases the event was not a click on the
    reset or the sync button and the page was not the home page.  The
    entry holds the count, the score and the traces of that attempt.
    Moreover every event in the finished state that shows the finished
    page appends an entry.  So abandoning an attempt by the reset or
    sync buttons, starting, answering and moving on never add, remove
    or change a history entry or a trace of one. *)
Theorem history_changes_only_when_finished u s :
  reachable s →
  ((history (run u s).2 = history s ∧
    history_value (run u s).2 = history_value s ∧
    history_file (disk (run u s).2) = history_file (disk s))
   ∨
   ((app_state s = Finished ∨
     (app_state s = Playing ∧ answered s = true ∧
      (current_idx s + 1)%nat = length (selected_q s) ∧
      clicked u = Some BtnFinish)) ∧
    clicked u ≠ Some BtnForceReset ∧
    clicked u ≠ Some BtnSync ∧
    page u ≠ PageHome ∧
    ∃ e, history_value (run u s).2 = history_value s ++ [e] ∧
         h_count e = length (selected_q s) ∧
         h_score e = score s ∧
         heap s !! session_records s = Some (h_details e) ∧
         history_file (disk (run u s).2) = Content (history_value (run u s).2))) ∧
  (app_state s = Finished → clicked u ≠ Some BtnForceReset →
   clicked u ≠ Some BtnSync → page u ≠ PageHome →
   ∃ e, history_value (run u s).2 = history_value s ++ [e]).
Proof.
  intros Hreach. destruct (reachable_ok s Hreach) as [Hatt Hheap].
  assert (Hquiet : ∀ s1, app_state s1 ≠ Finished ∨ page u = PageHome →
            history (script_pass (after_rerun u) s1).2 = history s1 ∧
            history_value (script_pass (after_rerun u) s1).2 = history_value s1 ∧
            history_file (disk (script_pass (after_rerun u) s1).2)
            = history_file (disk s1)).
  { intros s1 Hs1. by apply script_pass_quiet_history. }
  assert (Hphase : app_state s = Finished ∨ app_state s ≠ Finished).
  { destruct (app_state s); [by right|by right|by left]. }
  destruct Hphase as [Hfin|Hnot].
  - (* the finished state *)
    destruct Hatt as (recs & Hrecs & _ & _ & Hidx & _); [by rewrite Hfin|].
    assert (Hlen : length (selected_q s) ≠ 0%nat) by lia.
    destruct (decide (clicked u = Some BtnForceReset ∨ clicked u = Some BtnSync))
      as [Hclick|Hclick].
    { assert (Hpass : script_pass u s = (Rerun, set_app_state Idle s)).
      { unfold script_pass, pressed.
        destruct Hclick as [Hc|Hc]; rewrite Hc; by repeat case_bool_decide. }
      rewrite (run_rerun _ _ _ Hpass).
      destruct (Hquiet (set_app_state Idle s)) as (H1 & H2 & H3); [by left|].
      split; [by left|]. intros _ ? ?. by destruct Hclick. }
    assert (Hreset : pressed u BtnForceReset = false).
    { apply bool_decide_eq_false. tauto. }
    assert (Hsync : pressed u BtnSync = false).
    { apply bool_decide_eq_false. tauto. }
    assert (Hshown : page u = PageHome ∨ page u ≠ PageHome).
    { destruct (page u); [by left|by right|by right]. }
    destruct Hshown as [Hpage|Hpage].
    { assert (Hpass : (script_pass u s).1 ≠ Rerun ∧ (script_pass u s).2 = s).
      { unfold script_pass, home_block. rewrite Hreset, Hsync, Hpage, Hfin. simpl.
        by destruct (all_questions u). }
      destruct Hpass as [Ho Hs1]. destruct (script_pass u s) as [o s1] eqn:Hp.
      simpl in *. subst s1. rewrite (run_settled _ _ _ _ Hp Ho).
      split; [by left|]. done. }
    assert (Hpass : script_pass u s = finished_block u s).
    { unfold script_pass. rewrite Hreset, Hsync, Hfin.
      by destruct (page u). }
    destruct (finished_block_history u s recs Hfin Hrecs Hlen)
      as (Hh & Hv & Hf & Hout).
    assert (Hrun : history_value (run u s).2
                   = history_value s ++ [with_details recs (summary_record u s)] ∧
                   history_file (disk (run u s).2)
                   = Content (history_value (run u s).2)).
    { unfold run. rewrite Hpass. destruct (finished_block u s) as [o s1].
      simpl in *. destruct o; simpl; try done.
      destruct Hout as [Hs1|?]; [|done].
      destruct (Hquiet s1) as (_ & -> & ->); [by left|]. done. }
    destruct Hrun as [Hrun1 Hrun2].
    split; [|by eauto].
    right. split; [by left|]. split; [tauto|]. split; [tauto|]. split; [done|].
    eexists. split; [exact Hrun1|]. done.
  - (* the idle and the playing state *)
    split; [|done].
    pose proof (script_pass_step u s) as Hstep.
    destruct (pass_step_history_kept s _ Hstep Hheap Hnot) as (Hh1 & Hv1 & Hf1).
    destruct (script_pass u s) as [o s1] eqn:Hp1. simpl in *.
    assert (Hout : o = Rerun ∨ o ≠ Rerun).
    { destruct o; [by right|by left|by right|by right]. }
    destruct Hout as [->|Ho];
      [|rewrite (run_settled _ _ _ _ Hp1 Ho); by left].
    rewrite (run_rerun _ _ _ Hp1).
    assert (Hs1 : (app_state s1 ≠ Finished ∨ page u = PageHome) ∨
                  (app_state s1 = Finished ∧ page u ≠ PageHome)).
    { destruct (app_state s1), (page u); try (by left; left); try (by left; right).
      all: by right. }
    destruct Hs1 as [Hs1|[Hfin1 Hpage]].
    { destruct (Hquiet s1 Hs1) as (-> & -> & ->). by left. }
    destruct (pass_step_finished s s1 Hstep Hfin1 Hnot) as (Hplay & Hans & Hlast & _).
    destruct (script_pass_finishes u s Hplay) as [Hc Hpass]; [by rewrite Hp1|].
    rewrite Hp1 in Hpass. injection Hpass as ->.
    destruct Hatt as (recs & Hrecs & _); [by rewrite Hplay|].
    assert (Hpass2 : script_pass (after_rerun u) (set_app_state Finished s)
                     = finished_block (after_rerun u) (set_app_state Finished s)).
    { unfold script_pass. rewrite !after_rerun_unclicked. simpl.
      by destruct (page u). }
    destruct (finished_block_history (after_rerun u) (set_app_state Finished s) recs)
      as (Hh & Hv & Hf & _); [done|done|simpl; lia|].
    rewrite Hpass2. right.
    split; [right; done|]. split; [by rewrite Hc|]. split; [by rewrite Hc|].
    split; [done|].
    eexists. split; [rewrite Hv, Hv1; reflexivity|]. done.
Qed.

Lemma history_changes_only_when_finished_witness :
  ∃ e, history_value
         (run (demo_inputs PageRandom (Some BtnFinish) 5 [] None) demo_last_answered).2
       = history_value demo_last_answered ++ [e].
Proof.
  destruct (history_changes_only_when_finished
              (demo_inputs PageRandom (Some BtnFinish) 5 [] None) demo_last_answered)
    as [[(_ & Hsame & _) | (_ & _ & _ & _ & e & He & _)] _].
  - apply reachable_play, reach_run, reach_boot.
  - exfalso. revert Hsame. vm_compute. discriminate.
  - exists e. exact He.
Defined.
